(** * GitHubProfileSearch (script.js): search pipeline, rate gate, formatting
    helpers and search history, embedded from the JavaScript source. *)

From Stdlib Require Import ZArith Zpower Lia Bool List Ascii String DecimalString DecimalPos.
From Stdlib Require Import SpecFloat.
From stdpp Require Import base option list strings gmap.

Local Open Scope string_scope.
Local Open Scope Z_scope.

(** ** The JavaScript runtime, as far as the program uses it *)

Module JS.

(** *** Numbers

    A JavaScript Number is an IEEE-754 binary64 value.  The integers the
    program handles (counts parsed from JSON, header values parsed by
    [parseInt]) are kept as their mathematical value in [Z]; a division is
    carried out in binary64 ([SpecFloat], precision 53, emax 1024), as
    [num / 1000] is in the source. *)

Definition prec : Z := 53.
Definition emax : Z := 1024.

Definition Number_of_Z (z : Z) : spec_float :=
  binary_normalize prec emax z 0 false.

Definition Number_div (x y : spec_float) : spec_float :=
  SFdiv prec emax x y.

(** Decimal digits of an integer, as [Number.prototype.toString] prints an
    integer Number below 2^53 in magnitude. *)
Definition decimal (z : Z) : string :=
  NilZero.string_of_int (Z.to_int z).

(** [Number.prototype.toString()] on an integer Number.  Integers of
    magnitude 2^53 and above are printed from their shortest round-trip
    digits (or in exponent notation); that rendering is not modelled and is
    [None] here. *)
Definition Number_toString (z : Z) : option string :=
  if Z.abs z <? 2 ^ 53 then Some (decimal z) else None.

(** [x.toFixed(1)]: NaN prints as "NaN"; a value of magnitude 10^21 or more
    is printed by ToString ("Infinity" for the infinities, exponent notation
    otherwise, the latter not modelled: [None]); otherwise the integer [n]
    with [n / 10 - x] closest to zero, the larger one on a tie, is printed
    with a point before its last digit. *)
Definition tenths (m : positive) (e : Z) : Z :=
  if 0 <=? e then 10 * Zpos m * 2 ^ e
  else (20 * Zpos m + 2 ^ (- e)) / (2 * 2 ^ (- e)).

Definition at_least_1e21 (m : positive) (e : Z) : bool :=
  if 0 <=? e then 10 ^ 21 <=? Zpos m * 2 ^ e
  else 10 ^ 21 * 2 ^ (- e) <=? Zpos m.

Definition toFixed1 (x : spec_float) : option string :=
  match x with
  | S754_nan => Some "NaN"
  | S754_infinity s => Some (if s then "-Infinity" else "Infinity")
  | S754_zero _ => Some "0.0"
  | S754_finite s m e =>
      if at_least_1e21 m e then None
      else
        let n := tenths m e in
        Some ((if s then "-" else "") +:+ decimal (n / 10) +:+ "." +:+ decimal (n mod 10))
  end.

(** A Number that may be NaN: the result of [parseInt], the fields of
    [rateLimit], the time value of a Date. *)
Inductive number : Type :=
  | NaN
  | Int (z : Z).

(** *** Strings

    A string is a sequence of code units; the model keeps the code units
    below 256 ([ascii], read as Latin-1). *)

(** WhiteSpace and LineTerminator code units (below 256): TAB, LF, VT, FF,
    CR, SP, NBSP. *)
Definition isWhiteSpace (c : ascii) : bool :=
  let n := N_of_ascii c in
  ((9 <=? n) && (n <=? 13) || (n =? 32) || (n =? 160))%N.

Fixpoint trimStart (s : string) : string :=
  match s with
  | EmptyString => EmptyString
  | String c r => if isWhiteSpace c then trimStart r else s
  end.

Fixpoint trimEnd (s : string) : string :=
  match s with
  | EmptyString => EmptyString
  | String c r =>
      match trimEnd r with
      | EmptyString => if isWhiteSpace c then EmptyString else String c EmptyString
      | r' => String c r'
      end
  end.

(** [String.prototype.trim] *)
Definition trim (s : string) : string := trimEnd (trimStart s).

Fixpoint all_chars (p : ascii -> bool) (s : string) : bool :=
  match s with
  | EmptyString => true
  | String c r => p c && all_chars p r
  end.

(** ToBoolean of a string: only the empty string is falsy. *)
Definition truthy (s : string) : bool :=
  match s with EmptyString => false | _ => true end.

Definition toLowerAscii (c : ascii) : ascii :=
  let n := N_of_ascii c in
  if ((65 <=? n) && (n <=? 90))%N then ascii_of_N (n + 32) else c.

Fixpoint toLower (s : string) : string :=
  match s with
  | EmptyString => EmptyString
  | String c r => String (toLowerAscii c) (toLower r)
  end.

(** *** parseInt(string), radix omitted *)

Definition digit_value (radix : Z) (c : ascii) : option Z :=
  let n := Z.of_N (N_of_ascii c) in
  let v :=
    if (48 <=? n) && (n <=? 57) then Some (n - 48)
    else if (97 <=? n) && (n <=? 122) then Some (n - 87)
    else if (65 <=? n) && (n <=? 90) then Some (n - 55)
    else None in
  match v with
  | Some d => if d <? radix then Some d else None
  | None => None
  end.

(** The longest prefix of radix-[radix] digits, read left to right: [None]
    when there is no digit at all, else the value of the prefix with [acc]
    as the digits already read. *)
Fixpoint parse_digits (radix : Z) (s : string) (acc : option Z) : option Z :=
  match s with
  | EmptyString => acc
  | String c r =>
      match digit_value radix c with
      | Some d => parse_digits radix r (Some (radix * default 0 acc + d))
      | None => acc
      end
  end.

Definition strip_hex_prefix (s : string) : option string :=
  match s with
  | String "0" (String "x" r) => Some r
  | String "0" (String "X" r) => Some r
  | _ => None
  end.

Definition parse_unsigned (s : string) : option Z :=
  match strip_hex_prefix s with
  | Some r => parse_digits 16 r None
  | None => parse_digits 10 s None
  end.

(** Leading white space is skipped, a sign is read, a 0x/0X prefix selects
    radix 16, and the longest digit prefix is converted; NaN when that
    prefix is empty.  The result is kept as the exact integer (the Number is
    the binary64 nearest to it, equal to it below 2^53). *)
Definition parseInt (input : string) : number :=
  let s := trimStart input in
  let '(neg, s') :=
    match s with
    | String "-" r => (true, r)
    | String "+" r => (false, r)
    | _ => (false, s)
    end in
  match parse_unsigned s' with
  | Some v => Int (if neg then - v else v)
  | None => NaN
  end.

(** [a <= 0] and [a < b] on Numbers: false as soon as an operand is NaN. *)
Definition le_zero (a : number) : bool :=
  match a with
  | Int z => z <=? 0
  | NaN => false
  end.

Definition lt (a b : number) : bool :=
  match a, b with
  | Int x, Int y => x <? y
  | _, _ => false
  end.

(** [a * 1000] *)
Definition times1000 (a : number) : number :=
  match a with
  | Int z => Int (z * 1000)
  | NaN => NaN
  end.

(** *** Dates

    A Date holds a time value: milliseconds since the epoch, or NaN (an
    Invalid Date).  [new Date(v)] applies TimeClip: a value of magnitude
    above 8.64e15 gives NaN. *)
Definition maxTime : Z := 8640000000000000.

Definition TimeClip (v : number) : number :=
  match v with
  | Int z => if Z.abs z <=? maxTime then Int z else NaN
  | NaN => NaN
  end.

Definition msPerDay : Z := 86400000.

(** Day number (days since 1970-01-01) to proleptic Gregorian
    (year, month 1..12, day 1..31). *)
Definition civil_from_days (days : Z) : Z * Z * Z :=
  let z := days + 719468 in
  let era := z / 146097 in
  let doe := z - era * 146097 in
  let yoe := (doe - doe / 1460 + doe / 36524 - doe / 146096) / 365 in
  let doy := doe - (365 * yoe + yoe / 4 - yoe / 100) in
  let mp := (5 * doy + 2) / 153 in
  let d := doy - (153 * mp + 2) / 5 + 1 in
  let m := if mp <? 10 then mp + 3 else mp - 9 in
  let y := yoe + era * 400 + (if m <=? 2 then 1 else 0) in
  (y, m, d).

(** The inverse: (year, month, day) to day number. *)
Definition days_from_civil (y m d : Z) : Z :=
  let y' := if m <=? 2 then y - 1 else y in
  let era := y' / 400 in
  let yoe := y' - era * 400 in
  let mp := if 2 <? m then m - 3 else m + 9 in
  let doy := (153 * mp + 2) / 5 + d - 1 in
  let doe := yoe * 365 + yoe / 4 - yoe / 100 + doy in
  era * 146097 + doe - 719468.

Definition month_long (m : Z) : string :=
  nth (Z.to_nat (m - 1))
    ["January"; "February"; "March"; "April"; "May"; "June"; "July";
     "August"; "September"; "October"; "November"; "December"] "".

(** The year as en-US prints it for [year: 'numeric']: the year of the era,
    without padding (proleptic year 0 is 1 BC, printed 1). *)
Definition year_numeric (y : Z) : string :=
  decimal (if 0 <? y then y else 1 - y).

(** [toLocaleDateString('en-US', { year: 'numeric', month: 'long' })] of a
    Date with time value [date], in a host whose local time is [tza t]
    milliseconds ahead of UTC at time [t]. *)
Definition toLocaleDateString_month_year (tza : Z -> Z) (date : number) : string :=
  match date with
  | NaN => "Invalid Date"
  | Int t =>
      let '(y, m, _) := civil_from_days ((t + tza t) / msPerDay) in
      month_long m +:+ " " +:+ year_numeric y
  end.

(** The Date Time String Format in the form the GitHub API sends,
    YYYY-MM-DDTHH:mm:ssZ, which every [Date.parse] must accept; other
    strings are left to the host. *)
Definition two_digits (a b : ascii) : option Z :=
  match digit_value 10 a, digit_value 10 b with
  | Some x, Some y => Some (10 * x + y)
  | _, _ => None
  end.

Definition days_in_month (y m : Z) : Z :=
  days_from_civil (if m =? 12 then y + 1 else y) (if m =? 12 then 1 else m + 1) 1
  - days_from_civil y m 1.

Definition parse_utc_timestamp (s : string) : option Z :=
  match list_ascii_of_string s with
  | [y1; y2; y3; y4; "-"; m1; m2; "-"; d1; d2; "T"; h1; h2; ":"; n1; n2; ":"; s1; s2; "Z"]%char =>
      yh ← two_digits y1 y2; yl ← two_digits y3 y4;
      mo ← two_digits m1 m2; dd ← two_digits d1 d2;
      hh ← two_digits h1 h2; mi ← two_digits n1 n2; ss ← two_digits s1 s2;
      let y := 100 * yh + yl in
      if (1 <=? mo) && (mo <=? 12) && (1 <=? dd) && (dd <=? days_in_month y mo)
         && (hh <=? 23) && (mi <=? 59) && (ss <=? 59)
      then Some (days_from_civil y mo dd * msPerDay + ((hh * 60 + mi) * 60 + ss) * 1000)
      else None
  | _ => None
  end.

End JS.

(** ** Formatting helpers *)

(** [formatNumber(num)], script.js lines 273-280.  The comparisons are made
    on the integer itself: rounding an integer to binary64 is monotone and
    1000 and 1000000 are exact, so they agree with the comparisons of the
    Numbers. *)
Definition formatNumber (num : Z) : option string :=
  if 1000000 <=? num then
    (λ s, s +:+ "M") <$> JS.toFixed1 (JS.Number_div (JS.Number_of_Z num) (JS.Number_of_Z 1000000))
  else if 1000 <=? num then
    (λ s, s +:+ "K") <$> JS.toFixed1 (JS.Number_div (JS.Number_of_Z num) (JS.Number_of_Z 1000))
  else JS.Number_toString num.

(** ** Data of the GitHub API, as far as the program reads it *)

(** A user object, as the body of a success answer of the users endpoint is
    taken to be: the counts are integers, the fields read through [||] may
    be null. *)
Record Profile : Type := {
  login : string;
  name : option string;
  bio : option string;
  followers : Z;
  following : Z;
  public_repos : Z;
  location : option string;
  blog : option string;
  created_at : string;
  company : option string;
  avatar_url : string;
  html_url : string
}.

(** A repository object of the repos endpoint. *)
Record Repository : Type := {
  repo_name : string;
  repo_html_url : string;
  private : bool;
  description : option string;
  stargazers_count : Z;
  forks_count : Z;
  language : option string
}.

(** A promise once settled: fulfilled with a value, or rejected with an
    Error of which the program reads only [message]. *)
Inductive settled (A : Type) : Type :=
  | Fulfilled (v : A)
  | Rejected (message : string).
Arguments Fulfilled {A} v.
Arguments Rejected {A} message.

(** A Response: [headers] is keyed by lower-cased header name
    ([Headers.get] ignores case); [json] is what [response.json()] settles
    to (rejected when the body is not JSON). *)
Record Response (A : Type) : Type := {
  status : Z;
  headers : gmap string string;
  json : settled A
}.
Arguments status {A} _.
Arguments headers {A} _.
Arguments json {A} _.

(** [response.ok] *)
Definition ok {A} (response : Response A) : bool :=
  (200 <=? status response) && (status response <=? 299).

Definition Headers_get (h : gmap string string) (key : string) : option string :=
  h !! JS.toLower key.

(** [value || fallback] on a string that may be null. *)
Definition or_else (value : option string) (fallback : string) : string :=
  match value with
  | Some v => if JS.truthy v then v else fallback
  | None => fallback
  end.

(** The host of one search: the clock reading of [new Date()], the local
    time zone, [Date.parse], what the two requests settle to (a rejected
    [fetch] is a transport error), and which of the two promises handed to
    [Promise.all] settles first. *)
Record Host : Type := {
  now : Z;
  LocalTZA : Z -> Z;
  Date_parse : string -> JS.number;
  fetch_user : string -> settled (Response Profile);
  fetch_repos : string -> settled (Response (list Repository));
  profile_settles_first : bool
}.

(** ** Formatting helpers, continued *)

(** [formatJoinDate(dateString)], script.js lines 282-288 *)
Definition formatJoinDate (h : Host) (dateString : string) : string :=
  let date := JS.TimeClip (Date_parse h dateString) in
  "Joined " +:+ JS.toLocaleDateString_month_year (LocalTZA h) date.

(** ** Rate gate *)

(** [this.rateLimit] *)
Record RateLimit : Type := {
  remaining : JS.number;
  reset : JS.number
}.

(** [updateRateLimit(headers)], script.js lines 290-293 *)
Definition updateRateLimit (hs : gmap string string) : RateLimit :=
  {| remaining := JS.parseInt (or_else (Headers_get hs "X-RateLimit-Remaining") "0");
     reset := JS.parseInt (or_else (Headers_get hs "X-RateLimit-Reset") "0") |}.

(** [checkRateLimit()], script.js lines 295-304, at clock reading [t] *)
Definition checkRateLimit (t : Z) (rl : RateLimit) : bool :=
  if JS.le_zero (remaining rl) then
    let resetTime := JS.TimeClip (JS.times1000 (reset rl)) in
    let now := JS.Int t in
    if JS.lt now resetTime then false else true
  else true.

(** ** The page *)

(** What [displayProfile] writes into the profile card. *)
Record ProfileCard : Type := {
  profileImage_src : string;
  profileImage_alt : string;
  profileName : string;
  profileUsername : string;
  profileBio : string;
  followersCount : option string;
  followingCount : option string;
  reposCount : option string;
  profileLocation : string;
  profileWebsite : string;
  profileWebsite_href : string;
  profileJoinDate : string;
  profileCompany : string;
  githubLink : string
}.

(** The instance: its fields, the state of the DOM nodes it drives, and the
    URLs handed to [fetch] so far (most recent last). *)
Record App : Type := {
  rateLimit : RateLimit;
  usernameInput : string;
  errorText : string;
  errorShown : bool;
  loading : bool;
  profileShown : bool;
  card : option ProfileCard;
  currentRepos : option (list Repository);
  requests : list string
}.

Definition apiBase : string := "https://api.github.com".

(** The constructor's state. *)
Definition initial (input : string) : App :=
  {| rateLimit := {| remaining := JS.Int 60; reset := JS.Int 0 |};
     usernameInput := input; errorText := ""; errorShown := false;
     loading := false; profileShown := false; card := None;
     currentRepos := None; requests := [] |}.

Definition set_rateLimit (rl : RateLimit) (st : App) : App :=
  {| rateLimit := rl; usernameInput := usernameInput st;
     errorText := errorText st; errorShown := errorShown st;
     loading := loading st; profileShown := profileShown st; card := card st;
     currentRepos := currentRepos st; requests := requests st |}.

Definition log_request (url : string) (st : App) : App :=
  {| rateLimit := rateLimit st; usernameInput := usernameInput st;
     errorText := errorText st; errorShown := errorShown st;
     loading := loading st; profileShown := profileShown st; card := card st;
     currentRepos := currentRepos st; requests := requests st ++ [url] |}.

Definition showLoading (st : App) : App :=
  {| rateLimit := rateLimit st; usernameInput := usernameInput st;
     errorText := errorText st; errorShown := errorShown st;
     loading := true; profileShown := profileShown st; card := card st;
     currentRepos := currentRepos st; requests := requests st |}.

Definition hideLoading (st : App) : App :=
  {| rateLimit := rateLimit st; usernameInput := usernameInput st;
     errorText := errorText st; errorShown := errorShown st;
     loading := false; profileShown := profileShown st; card := card st;
     currentRepos := currentRepos st; requests := requests st |}.

Definition showError (message : string) (st : App) : App :=
  {| rateLimit := rateLimit st; usernameInput := usernameInput st;
     errorText := message; errorShown := true;
     loading := loading st; profileShown := profileShown st; card := card st;
     currentRepos := currentRepos st; requests := requests st |}.

Definition hideError (st : App) : App :=
  {| rateLimit := rateLimit st; usernameInput := usernameInput st;
     errorText := errorText st; errorShown := false;
     loading := loading st; profileShown := profileShown st; card := card st;
     currentRepos := currentRepos st; requests := requests st |}.

Definition showProfile (st : App) : App :=
  {| rateLimit := rateLimit st; usernameInput := usernameInput st;
     errorText := errorText st; errorShown := errorShown st;
     loading := loading st; profileShown := true; card := card st;
     currentRepos := currentRepos st; requests := requests st |}.

Definition hideProfile (st : App) : App :=
  {| rateLimit := rateLimit st; usernameInput := usernameInput st;
     errorText := errorText st; errorShown := errorShown st;
     loading := loading st; profileShown := false; card := card st;
     currentRepos := currentRepos st; requests := requests st |}.

(** [handleError(error)], script.js lines 268-271 *)
Definition handleError (message : string) (st : App) : App :=
  showError message st.

(** The card [displayProfile] fills in, script.js lines 154-176. *)
Definition render (h : Host) (profile : Profile) : ProfileCard :=
  {| profileImage_src := avatar_url profile;
     profileImage_alt := or_else (name profile) (login profile) +:+ "'s profile picture";
     profileName := or_else (name profile) (login profile);
     profileUsername := "@" +:+ login profile;
     profileBio := or_else (bio profile) "No bio available";
     followersCount := formatNumber (followers profile);
     followingCount := formatNumber (following profile);
     reposCount := formatNumber (public_repos profile);
     profileLocation := or_else (location profile) "Not specified";
     profileWebsite := or_else (blog profile) "Not specified";
     profileWebsite_href := or_else (blog profile) "#";
     profileJoinDate := formatJoinDate h (created_at profile);
     profileCompany := or_else (company profile) "Not specified";
     githubLink := html_url profile |}.

(** [displayProfile(profile, repos)], script.js lines 153-186 *)
Definition displayProfile (h : Host) (profile : Profile) (repos : list Repository)
    (st : App) : App :=
  showProfile
    {| rateLimit := rateLimit st; usernameInput := usernameInput st;
       errorText := errorText st; errorShown := errorShown st;
       loading := loading st; profileShown := profileShown st;
       card := Some (render h profile);
       currentRepos := Some repos; requests := requests st |}.

(** ** Asynchronous methods

    An async method is run to its settlement: it transforms the instance and
    settles to a value or to a thrown Error.  This is one search whose
    requests settle, with nothing else handled meanwhile; the page event by
    event, where a request may stay pending and searches may overlap, comes
    after the handlers. *)
Definition Async (A : Type) : Type := App -> App * settled A.

Definition resolve {A} (v : A) : Async A := fun st => (st, Fulfilled v).
Definition throw {A} (message : string) : Async A := fun st => (st, Rejected message).
Definition await {A B} (c : Async A) (k : A -> Async B) : Async B :=
  fun st =>
    match c st with
    | (st', Fulfilled v) => k v st'
    | (st', Rejected message) => (st', Rejected message)
    end.
Definition effect (f : App -> App) : Async unit := fun st => (f st, Fulfilled tt).
Definition settle {A} (s : settled A) : Async A := fun st => (st, s).

Notation "'let*' x := c 'in' k" := (await c (fun x => k))
  (at level 10, x name, c at level 100, k at level 200).

(** [fetch(url, ...)]: the request is issued, then settles as the host says. *)
Definition fetch {A} (answer : string -> settled (Response A)) (url : string)
    : Async (Response A) :=
  fun st => (log_request url st, answer url).

(** The two endpoints: [`${this.apiBase}/users/${username}`] and
    [`${this.apiBase}/users/${username}/repos?sort=updated&per_page=6`]. *)
Definition user_url (username : string) : string :=
  apiBase +:+ "/users/" +:+ username.

Definition repos_url (username : string) : string :=
  apiBase +:+ "/users/" +:+ username +:+ "/repos?sort=updated&per_page=6".

(** [fetchUserProfile(username)], script.js lines 115-136 *)
Definition fetchUserProfile (h : Host) (username : string) : Async Profile :=
  let* response := fetch (fetch_user h) (user_url username) in
  if negb (ok response) then
    if status response =? 404 then
      throw "User not found. Please check the username and try again."
    else if status response =? 403 then
      throw "API rate limit exceeded. Please try again later."
    else
      throw "Failed to fetch user profile. Please try again."
  else
    let* _ := effect (set_rateLimit (updateRateLimit (headers response))) in
    settle (json response).

(** [fetchUserRepositories(username)], script.js lines 138-151 *)
Definition fetchUserRepositories (h : Host) (username : string)
    : Async (list Repository) :=
  let* response := fetch (fetch_repos h) (repos_url username) in
  if negb (ok response) then resolve []
  else settle (json response).

(** [Promise.all([p, q])]: fulfilled with both values when both are
    fulfilled; otherwise rejected with the reason of the promise that
    rejects first. *)
Definition Promise_all {A B} (first : bool) (p : settled A) (q : settled B)
    : settled (A * B) :=
  match p, q with
  | Fulfilled a, Fulfilled b => Fulfilled (a, b)
  | Rejected message, Fulfilled _ => Rejected message
  | Fulfilled _, Rejected message => Rejected message
  | Rejected mp, Rejected mq => Rejected (if first then mp else mq)
  end.

(** [handleSearch()], script.js lines 83-113.  Both methods are called
    before either is awaited, so both requests are issued, the profile one
    first; each then runs to its settlement. *)
Definition handleSearch (h : Host) (st : App) : App :=
  let username := JS.trim (usernameInput st) in
  if negb (JS.truthy username) then
    showError "Please enter a GitHub username" st
  else if negb (checkRateLimit (now h) (rateLimit st)) then
    showError "Rate limit exceeded. Please try again later." st
  else
    let st := hideProfile (hideError (showLoading st)) in
    let '(st, p) := fetchUserProfile h username st in
    let '(st, q) := fetchUserRepositories h username st in
    match Promise_all (profile_settles_first h) p q with
    | Fulfilled (profile, repos) => hideLoading (displayProfile h profile repos st)
    | Rejected message => handleError message (hideLoading st)
    end.

(** ** The search contract, read off the page *)

Inductive SearchError : Type :=
  | InvalidInput
  | UserNotFound
  | RateLimited
  | FetchFailed.

(** The kind of a displayed message: the four messages of the source, and
    FetchFailed for any other (the message of a transport error). *)
Definition error_kind (message : string) : SearchError :=
  if String.eqb message "Please enter a GitHub username" then InvalidInput
  else if String.eqb message "User not found. Please check the username and try again."
  then UserNotFound
  else if String.eqb message "Rate limit exceeded. Please try again later."
          || String.eqb message "API rate limit exceeded. Please try again later."
  then RateLimited
  else FetchFailed.

Inductive SearchResult : Type :=
  | Failure (e : SearchError)
  | Success (profile : ProfileCard) (repositories : list Repository)
  | Nothing.

(** The result on display: the error box wins, else the profile card with
    the repositories stored beside it. *)
Definition result (st : App) : SearchResult :=
  if errorShown st then Failure (error_kind (errorText st))
  else if profileShown st then
    match card st, currentRepos st with
    | Some c, Some rs => Success c rs
    | _, _ => Nothing
    end
  else Nothing.

(** ** Search history, script.js lines 426-468 *)

(** An item of [localStorage] is a string; one written by
    [JSON.stringify(history)] is represented by the array it denotes
    ([JSON.parse] gives it back), any other by its text. *)
Inductive item : Type :=
  | Json (names : list string)
  | Text (value : string).

(** The closure of [addSearchHistory]: its [history] array, shared by
    [addToHistory] and [showHistory], and the storage it writes to. *)
Record Session : Type := {
  history : list string;
  localStorage : gmap string item
}.

Definition history_key : string := "github-search-history".

(** [JSON.parse(localStorage.getItem(key) || '[]')]; a text that is not
    such an array makes [JSON.parse] throw (or the later [includes]):
    [None]. *)
Definition addSearchHistory (ls : gmap string item) : option Session :=
  match ls !! history_key with
  | None => Some {| history := []; localStorage := ls |}
  | Some (Json names) => Some {| history := names; localStorage := ls |}
  | Some (Text value) =>
      if JS.truthy value then None else Some {| history := []; localStorage := ls |}
  end.

(** [history.pop()] *)
Definition pop (l : list string) : list string := removelast l.

(** [addToHistory(username)], script.js lines 431-439 *)
Definition addToHistory (username : string) (s : Session) : Session :=
  if bool_decide (username ∈ history s) then s
  else
    let h1 := username :: history s in
    let h2 := if 5 <? Z.of_nat (length h1) then pop h1 else h1 in
    {| history := h2; localStorage := <[history_key := Json h2]> (localStorage s) |}.

(** What the storage holds as the history. *)
Definition persisted (ls : gmap string item) : list string :=
  match ls !! history_key with
  | Some (Json names) => names
  | _ => []
  end.

(** Recording the names of [searches] one after the other, first to last. *)
Definition record_all (searches : list string) (s : Session) : Session :=
  foldl (fun acc username => addToHistory username acc) s searches.

(** ** Further handlers *)

(** The user types [input] into the username field. *)
Definition type_username (input : string) (st : App) : App :=
  {| rateLimit := rateLimit st; usernameInput := input;
     errorText := errorText st; errorShown := errorShown st;
     loading := loading st; profileShown := profileShown st; card := card st;
     currentRepos := currentRepos st; requests := requests st |}.

(** A keydown event, as far as [addKeyboardShortcuts] reads it. *)
Record KeyEvent : Type := {
  key : string;
  ctrlKey : bool;
  metaKey : bool
}.

(** The keydown handler of [addKeyboardShortcuts], script.js lines 410-423.
    Ctrl/Cmd + K only moves the focus, which is no part of the instance. *)
Definition on_keydown (e : KeyEvent) (st : App) : App :=
  if String.eqb (key e) "Escape" then hideError (hideProfile (type_username "" st))
  else st.

(** ** Repositories panel, script.js lines 188-235 *)

(** The double quote, a line break followed by [k] spaces: the template
    literal of [displayRepositories] is kept character for character. *)
Definition quote : string := String (ascii_of_nat 34) EmptyString.

Definition nl (k : nat) : string :=
  String (ascii_of_nat 10) (string_of_list_ascii (repeat " "%char k)).

(** The text of the template between its placeholders. *)
Definition card_part0 : string :=
  nl 12 +:+ "<div class=" +:+ quote +:+ "repo-card" +:+ quote +:+ ">"
    +:+ nl 16 +:+ "<div class=" +:+ quote +:+ "repo-header" +:+ quote +:+ ">"
    +:+ nl 20 +:+ "<a href=" +:+ quote.

Definition card_part1 : string :=
  quote +:+ " target=" +:+ quote +:+ "_blank" +:+ quote +:+ " class="
    +:+ quote +:+ "repo-name" +:+ quote +:+ ">" +:+ nl 24.

Definition card_part2 : string :=
  nl 20 +:+ "</a>" +:+ nl 20 +:+ "<span class=" +:+ quote
    +:+ "repo-visibility ".

Definition card_part3 : string :=
  quote +:+ ">" +:+ nl 24.

Definition card_part4 : string :=
  nl 20 +:+ "</span>" +:+ nl 16 +:+ "</div>" +:+ nl 16 +:+ "<p class="
    +:+ quote +:+ "repo-description" +:+ quote +:+ ">".

Definition card_part5 : string :=
  "</p>" +:+ nl 16 +:+ "<div class=" +:+ quote +:+ "repo-stats" +:+ quote
    +:+ ">" +:+ nl 20 +:+ "<div class=" +:+ quote +:+ "repo-stat" +:+ quote
    +:+ ">" +:+ nl 24 +:+ "<i class=" +:+ quote +:+ "fas fa-star" +:+ quote
    +:+ "></i>" +:+ nl 24 +:+ "<span>".

Definition card_part6 : string :=
  "</span>" +:+ nl 20 +:+ "</div>" +:+ nl 20 +:+ "<div class=" +:+ quote
    +:+ "repo-stat" +:+ quote +:+ ">" +:+ nl 24 +:+ "<i class=" +:+ quote
    +:+ "fas fa-code-branch" +:+ quote +:+ "></i>" +:+ nl 24 +:+ "<span>".

Definition card_part7 : string :=
  "</span>" +:+ nl 20 +:+ "</div>" +:+ nl 20 +:+ "<div class=" +:+ quote
    +:+ "repo-stat" +:+ quote +:+ ">" +:+ nl 24 +:+ "<i class=" +:+ quote
    +:+ "fas fa-circle" +:+ quote +:+ "></i>" +:+ nl 24 +:+ "<span>".

Definition card_part8 : string :=
  "</span>" +:+ nl 20 +:+ "</div>" +:+ nl 16 +:+ "</div>" +:+ nl 12
    +:+ "</div>" +:+ nl 8.

(** One card: [`<div class="repo-card">...</div>`] for [repo]. *)
Definition repo_card (repo : Repository) : option string :=
  stars ← formatNumber (stargazers_count repo);
  forks ← formatNumber (forks_count repo);
  Some (card_part0 +:+ repo_html_url repo +:+ card_part1 +:+ repo_name repo
        +:+ card_part2 +:+ (if private repo then "private" else "public")
        +:+ card_part3 +:+ (if private repo then "Private" else "Public")
        +:+ card_part4 +:+ or_else (description repo) "No description available"
        +:+ card_part5 +:+ stars +:+ card_part6 +:+ forks
        +:+ card_part7 +:+ or_else (language repo) "No language" +:+ card_part8).

(** [repos.map(repo => ...).join('')] *)
Fixpoint join_cards (repos : list Repository) : option string :=
  match repos with
  | [] => Some ""
  | repo :: rest =>
      c ← repo_card repo; cs ← join_cards rest; Some (c +:+ cs)
  end.

Definition no_repos : string :=
  "<p class=" +:+ quote +:+ "no-repos" +:+ quote +:+ ">No repositories found</p>".

(** [displayRepositories(repos)], script.js lines 188-224: the markup put
    into the list; [repos] is [None] when [currentRepos] is undefined. *)
Definition displayRepositories (repos : option (list Repository)) : option string :=
  match repos with
  | None | Some [] => Some no_repos
  | Some l => join_cards l
  end.

(** The nodes [toggleRepositories] drives: the inline display of the
    section, the markup of the list and of the button. *)
Record ReposPanel : Type := {
  display : string;
  reposList : string;
  viewReposBtn : string
}.

Definition hide_label : string :=
  "<i class=" +:+ quote +:+ "fas fa-eye-slash" +:+ quote +:+ "></i> Hide Repositories".

Definition view_label : string :=
  "<i class=" +:+ quote +:+ "fas fa-folder-open" +:+ quote +:+ "></i> View Repositories".

(** [toggleRepositories()], script.js lines 226-235, with [repos] the value
    of [this.currentRepos]. *)
Definition toggleRepositories (repos : option (list Repository)) (p : ReposPanel)
    : option ReposPanel :=
  if String.eqb (display p) "none" || negb (JS.truthy (display p)) then
    html ← displayRepositories repos;
    Some {| display := "block"; reposList := html; viewReposBtn := hide_label |}
  else
    Some {| display := "none"; reposList := reposList p; viewReposBtn := view_label |}.

(** ** Theme toggle, script.js lines 470-493 *)

(** Whether the body has the class light-theme, the markup of the toggle
    button, and the storage. *)
Record Theme : Type := {
  light_theme : bool;
  themeToggle : string;
  theme_storage : gmap string item
}.

Definition icon (shape : string) : string :=
  "<i class=" +:+ quote +:+ "fas fa-" +:+ shape +:+ quote +:+ "></i>".

(** The click handler of the toggle button. *)
Definition theme_click (t : Theme) : Theme :=
  let isLight := negb (light_theme t) in
  {| light_theme := isLight;
     themeToggle := if isLight then icon "sun" else icon "moon";
     theme_storage :=
       <["theme" := Text (if isLight then "light" else "dark")]> (theme_storage t) |}.

(** [localStorage.getItem('theme') === 'light'] *)
Definition saved_light (ls : gmap string item) : bool :=
  match ls !! "theme" with
  | Some (Text value) => String.eqb value "light"
  | _ => false
  end.

(** [addThemeToggle()]: the button is created with the moon, and a saved
    light theme is applied; [light] tells whether the body has the class
    light-theme before. *)
Definition addThemeToggle (light : bool) (ls : gmap string item) : Theme :=
  if saved_light ls then
    {| light_theme := true; themeToggle := icon "sun"; theme_storage := ls |}
  else
    {| light_theme := light; themeToggle := icon "moon"; theme_storage := ls |}.

(** ** Typing effect, script.js lines 361-375 *)

(** The element's text, the index [i] of the closure, and whether a timer
    is pending. *)
Record Typing : Type := {
  textContent : string;
  typed : nat;
  pending : bool
}.

(** [text.charAt(i)] *)
Definition charAt (i : nat) (text : string) : string :=
  match String.get i text with
  | Some c => String c EmptyString
  | None => EmptyString
  end.

(** One call of [typeWriter]. *)
Definition typeWriter (text : string) (st : Typing) : Typing :=
  if (typed st <? String.length text)%nat then
    {| textContent := textContent st +:+ charAt (typed st) text;
       typed := S (typed st); pending := true |}
  else
    {| textContent := textContent st; typed := typed st; pending := false |}.

(** [addTypingEffect(element, text, speed)]: the text is emptied and
    [typeWriter] called once. *)
Definition addTypingEffect (text : string) : Typing :=
  typeWriter text {| textContent := ""; typed := 0; pending := false |}.

(** A timer fires, if one is pending. *)
Definition timer (text : string) (st : Typing) : Typing :=
  if pending st then typeWriter text st else st.

(** ** The page, event by event

    [handleSearch] and the two methods it calls give up control at their
    awaits: between the start of a search and the settlement of its
    requests the page handles other events, further searches among them,
    and an awaited promise may stay pending for good (no request has a
    timeout or an abort signal).  Here every await is a point at which the
    method waits for an event of the network.  (The wrapper that
    [addSearchAnalytics] puts around [handleSearch] only logs.) *)

(** Where [fetchUserProfile] or [fetchUserRepositories] stands: at
    [await fetch(...)], at [await response.json()], or settled. *)
Inductive Stage (A : Type) : Type :=
  | AwaitFetch
  | AwaitJson (response : Response A)
  | Done (s : settled A).
Arguments AwaitFetch {A}.
Arguments AwaitJson {A} response.
Arguments Done {A} s.

(** A call of [handleSearch] that is past its two checks: the promises of
    the two methods, and what [Promise.all] has settled to, once it has. *)
Record Search : Type := {
  profilePromise : Stage Profile;
  reposPromise : Stage (list Repository);
  outcome : option (settled (Profile * list Repository))
}.

(** The instance and the searches started so far, oldest first. *)
Record Page : Type := {
  app : App;
  searches : list Search
}.

(** What the page reacts to.  A search is numbered by its position in
    [searches]. *)
Inductive Event : Type :=
  | Typed (value : string)
  | Enter (t : Z)
  | Click (t : Z)
  | Keydown (e : KeyEvent)
  | ProfileAnswer (i : nat) (a : settled (Response Profile))
  | ProfileBody (i : nat)
  | ReposAnswer (i : nat) (a : settled (Response (list Repository)))
  | ReposBody (i : nat).

(** The page once the script has run. *)
Definition loaded (input : string) : Page :=
  {| app := initial input; searches := [] |}.

(** [handleSearch()] up to [await Promise.all([...])], script.js lines
    83-104, at clock reading [t]: both methods are called, each issues its
    request and waits. *)
Definition handleSearch_start (t : Z) (pg : Page) : Page :=
  let st := app pg in
  let username := JS.trim (usernameInput st) in
  if negb (JS.truthy username) then
    {| app := showError "Please enter a GitHub username" st; searches := searches pg |}
  else if negb (checkRateLimit t (rateLimit st)) then
    {| app := showError "Rate limit exceeded. Please try again later." st;
       searches := searches pg |}
  else
    let st := hideProfile (hideError (showLoading st)) in
    let st := log_request (user_url username) st in
    let st := log_request (repos_url username) st in
    {| app := st;
       searches := searches pg ++
         [{| profilePromise := AwaitFetch; reposPromise := AwaitFetch; outcome := None |}] |}.

(** The rest of [handleSearch] once [Promise.all] has settled to [o],
    script.js lines 106-112. *)
Definition handleSearch_resume (h : Host) (o : settled (Profile * list Repository))
    (st : App) : App :=
  match o with
  | Fulfilled (profile, repos) => hideLoading (displayProfile h profile repos st)
  | Rejected message => handleError message (hideLoading st)
  end.

(** [Promise.all] settles to [o]: the search goes on at once. *)
Definition all_settles (h : Host) (o : settled (Profile * list Repository))
    (s : Search) (st : App) : Search * App :=
  ({| profilePromise := profilePromise s; reposPromise := reposPromise s;
      outcome := Some o |},
   handleSearch_resume h o st).

(** The promise of [fetchUserProfile] settles to [x]: a rejection rejects
    [Promise.all] unless it has settled; a value fulfils it when the other
    promise is fulfilled already. *)
Definition profile_settles (h : Host) (x : settled Profile) (s : Search) (st : App)
    : Search * App :=
  let s := {| profilePromise := Done x; reposPromise := reposPromise s;
              outcome := outcome s |} in
  match outcome s, x, reposPromise s with
  | None, Rejected message, _ => all_settles h (Rejected message) s st
  | None, Fulfilled profile, Done (Fulfilled repos) =>
      all_settles h (Fulfilled (profile, repos)) s st
  | _, _, _ => (s, st)
  end.

(** Likewise for the promise of [fetchUserRepositories]. *)
Definition repos_settles (h : Host) (x : settled (list Repository)) (s : Search) (st : App)
    : Search * App :=
  let s := {| profilePromise := profilePromise s; reposPromise := Done x;
              outcome := outcome s |} in
  match outcome s, x, profilePromise s with
  | None, Rejected message, _ => all_settles h (Rejected message) s st
  | None, Fulfilled repos, Done (Fulfilled profile) =>
      all_settles h (Fulfilled (profile, repos)) s st
  | _, _, _ => (s, st)
  end.

(** [fetchUserProfile] from its first await on, script.js lines 122-133. *)
Definition profile_answered (h : Host) (a : settled (Response Profile)) (s : Search)
    (st : App) : Search * App :=
  match profilePromise s with
  | AwaitFetch =>
      match a with
      | Rejected message => profile_settles h (Rejected message) s st
      | Fulfilled response =>
          if negb (ok response) then
            if status response =? 404 then
              profile_settles h
                (Rejected "User not found. Please check the username and try again.") s st
            else if status response =? 403 then
              profile_settles h
                (Rejected "API rate limit exceeded. Please try again later.") s st
            else
              profile_settles h
                (Rejected "Failed to fetch user profile. Please try again.") s st
          else
            ({| profilePromise := AwaitJson response; reposPromise := reposPromise s;
                outcome := outcome s |},
             set_rateLimit (updateRateLimit (headers response)) st)
      end
  | _ => (s, st)
  end.

(** ... and from its second, line 135. *)
Definition profile_body (h : Host) (s : Search) (st : App) : Search * App :=
  match profilePromise s with
  | AwaitJson response => profile_settles h (json response) s st
  | _ => (s, st)
  end.

(** [fetchUserRepositories] from its first await on, script.js lines
    145-148. *)
Definition repos_answered (h : Host) (a : settled (Response (list Repository)))
    (s : Search) (st : App) : Search * App :=
  match reposPromise s with
  | AwaitFetch =>
      match a with
      | Rejected message => repos_settles h (Rejected message) s st
      | Fulfilled response =>
          if negb (ok response) then repos_settles h (Fulfilled []) s st
          else
            ({| profilePromise := profilePromise s; reposPromise := AwaitJson response;
                outcome := outcome s |}, st)
      end
  | _ => (s, st)
  end.

(** ... and from its second, line 150. *)
Definition repos_body (h : Host) (s : Search) (st : App) : Search * App :=
  match reposPromise s with
  | AwaitJson response => repos_settles h (json response) s st
  | _ => (s, st)
  end.

(** An event of the network reaches search [i]. *)
Definition deliver (i : nat) (f : Search -> App -> Search * App) (pg : Page) : Page :=
  match searches pg !! i with
  | Some s =>
      let '(s', st') := f s (app pg) in
      {| app := st'; searches := <[i := s']> (searches pg) |}
  | None => pg
  end.

(** One event.  The field is edited; Enter is pressed in the field (the
    keypress handler of [bindEvents], lines 52-56; a click on a suggestion
    button, lines 68-74, is an edit followed by it); the search button is
    clicked (line 49; a disabled button gets no click); a key goes down
    anywhere (the handler of [addKeyboardShortcuts]); the [fetch] of a
    request of search [i] settles to [a]; the body of its answer has been
    read.  [t] is the reading of the clock.  Of the host [h] only the time
    zone and [Date.parse] are read. *)
Definition step (h : Host) (pg : Page) (ev : Event) : Page :=
  match ev with
  | Typed value => {| app := type_username value (app pg); searches := searches pg |}
  | Enter t => handleSearch_start t pg
  | Click t => if loading (app pg) then pg else handleSearch_start t pg
  | Keydown e => {| app := on_keydown e (app pg); searches := searches pg |}
  | ProfileAnswer i a => deliver i (profile_answered h a) pg
  | ProfileBody i => deliver i (profile_body h) pg
  | ReposAnswer i a => deliver i (repos_answered h a) pg
  | ReposBody i => deliver i (repos_body h) pg
  end.

(** The events of [evs], first to last. *)
Definition run (h : Host) (evs : list Event) (pg : Page) : Page :=
  foldl (step h) pg evs.

(** ** Vocabulary of the statements *)

(** The digits of [d] read after the value [acc]. *)
Fixpoint uint_value (d : Decimal.uint) (acc : Z) : Z :=
  match d with
  | Decimal.Nil => acc
  | Decimal.D0 l => uint_value l (10 * acc)
  | Decimal.D1 l => uint_value l (10 * acc + 1)
  | Decimal.D2 l => uint_value l (10 * acc + 2)
  | Decimal.D3 l => uint_value l (10 * acc + 3)
  | Decimal.D4 l => uint_value l (10 * acc + 4)
  | Decimal.D5 l => uint_value l (10 * acc + 5)
  | Decimal.D6 l => uint_value l (10 * acc + 6)
  | Decimal.D7 l => uint_value l (10 * acc + 7)
  | Decimal.D8 l => uint_value l (10 * acc + 8)
  | Decimal.D9 l => uint_value l (10 * acc + 9)
  end.

(** [x] occurs in [s] as it is. *)
Definition occurs (x s : string) : Prop :=
  exists before after, s = before +:+ x +:+ after.

(** The section is hidden: its inline display is 'none' or not set. *)
Definition hidden (p : ReposPanel) : Prop :=
  display p = "none" \/ display p = "".

(** Closed comparisons and sums of numerals in [H] are evaluated. *)
Ltac eval_consts H :=
  repeat match type of H with
    | context [Zpos ?a =? Zpos ?b] =>
        let v := eval vm_compute in (Zpos a =? Zpos b) in
        change (Zpos a =? Zpos b) with v in H
    | context [Zpos ?a + 1] =>
        let v := eval vm_compute in (Zpos a + 1) in
        change (Zpos a + 1) with v in H
    end; cbv iota in H.

(** The integer [t], a number of tenths, printed with one decimal. *)
Definition one_decimal (t : Z) : string :=
  JS.decimal (t / 10) +:+ "." +:+ JS.decimal (t mod 10).

(** A rate-limit header that gives [parseInt] nothing to read: absent, or
    present without a leading integer. *)
Definition unusable (header : option string) : Prop :=
  forall v, header = Some v -> JS.parseInt v = JS.NaN.

(** What [parseInt(header || '0')] then stores: 0 for an absent or empty
    header, NaN for any other. *)
Definition stored_for (header : option string) : JS.number :=
  match header with
  | Some v => if JS.truthy v then JS.NaN else JS.Int 0
  | None => JS.Int 0
  end.

(** The error the spec assigns to a non-success status of the profile
    request. *)
Definition profile_error (code : Z) : SearchError :=
  if code =? 404 then UserNotFound
  else if code =? 403 then RateLimited
  else FetchFailed.

(** The message [fetchUserProfile] throws for it. *)
Definition profile_error_message (code : Z) : string :=
  if code =? 404 then "User not found. Please check the username and try again."
  else if code =? 403 then "API rate limit exceeded. Please try again later."
  else "Failed to fetch user profile. Please try again.".

(** The username is accepted and the rate gate lets the search through. *)
Definition admitted (h : Host) (st : App) : Prop :=
  JS.trim (usernameInput st) <> "" /\ checkRateLimit (now h) (rateLimit st) = true.

(** What the repositories promise settles to. *)
Definition repos_settlement (h : Host) (u : string) : settled (list Repository) :=
  match fetch_repos h (repos_url u) with
  | Fulfilled response => if ok response then json response else Fulfilled []
  | Rejected message => Rejected message
  end.

(** What the profile promise settles to. *)
Definition profile_settlement (h : Host) (u : string) : settled Profile :=
  match fetch_user h (user_url u) with
  | Fulfilled response =>
      if ok response then json response
      else Rejected (profile_error_message (status response))
  | Rejected message => Rejected message
  end.

(** The rate limit after the profile request: read from the headers of an
    answer with a success status, else as before. *)
Definition rateLimit_after (h : Host) (u : string) (before : RateLimit) : RateLimit :=
  match fetch_user h (user_url u) with
  | Fulfilled response => if ok response then updateRateLimit (headers response) else before
  | Rejected _ => before
  end.

(** The bounds of the search history: at most 5 entries, no duplicate. *)
Definition bounded (l : list string) : Prop :=
  (length l <= 5)%nat /\ NoDup l.

(** The timestamp falls on 2011-03-19 (UTC). *)
Definition on_2011_03_19 (t : Z) : Prop :=
  JS.days_from_civil 2011 3 19 * JS.msPerDay <= t
  < (JS.days_from_civil 2011 3 19 + 1) * JS.msPerDay.

(** The month [civil_from_days] computes, from the day of the 400-year era. *)
Definition month_of_doe (doe : Z) : Z :=
  let yoe := (doe - doe / 1460 + doe / 36524 - doe / 146096) / 365 in
  let doy := doe - (365 * yoe + yoe / 4 - yoe / 100) in
  let mp := (5 * doy + 2) / 153 in
  if mp <? 10 then mp + 3 else mp - 9.

(** [f] holds of the [count] integers from [lo] on. *)
Fixpoint all_from (f : Z -> bool) (lo : Z) (count : nat) : bool :=
  match count with
  | O => true
  | S k => f lo && all_from f (lo + 1) k
  end.

(** An integer that a Number holds exactly: every integer of magnitude up
    to 2^53 is a binary64 value. *)
Definition exact_Number (z : Z) : Prop := Z.abs z <= 2 ^ 53.

(** [Promise.all] of the search has settled. *)
Definition concluded (s : Search) : bool :=
  match outcome s with Some _ => true | None => false end.

(** No search is in flight. *)
Definition idle (pg : Page) : bool := forallb concluded (searches pg).

(** The number of searches that have settled. *)
Definition settlements (pg : Page) : nat :=
  length (List.filter concluded (searches pg)).

(** The event calls [handleSearch]. *)
Definition calls_handleSearch (ev : Event) : bool :=
  match ev with
  | Enter _ | Click _ => true
  | _ => false
  end.

(** The Escape key goes down. *)
Definition is_escape (ev : Event) : bool :=
  match ev with
  | Keydown e => String.eqb (key e) "Escape"
  | _ => false
  end.

(** The event is one of the network for search [n]. *)
Definition addresses (n : nat) (ev : Event) : bool :=
  match ev with
  | ProfileAnswer i _ | ProfileBody i | ReposAnswer i _ | ReposBody i => Nat.eqb i n
  | _ => false
  end.

(** What the display of [st'] owes to [st]: everything but the rate limit. *)
Definition same_page (st st' : App) : Prop :=
  usernameInput st' = usernameInput st /\ errorText st' = errorText st /\
  errorShown st' = errorShown st /\ loading st' = loading st /\
  profileShown st' = profileShown st /\ card st' = card st /\
  currentRepos st' = currentRepos st /\ requests st' = requests st.

(** An event of the network either leaves [Promise.all] as it is, and the
    page too but for the rate limit, or settles it. *)
Definition handled (h : Host) (s : Search) (st : App) (r : Search * App) : Prop :=
  (outcome (fst r) = outcome s /\ same_page st (snd r)) \/
  (outcome s = None /\
   exists o, outcome (fst r) = Some o /\ snd r = handleSearch_resume h o st).

(** What an event does to the page. *)
Inductive stepped (h : Host) (pg pg' : Page) : Prop :=
  | stepped_edit (st' : App) :
      pg' = {| app := st'; searches := searches pg |} ->
      loading st' = loading (app pg) ->
      stepped h pg pg'
  | stepped_start (st' : App) :
      pg' = {| app := st';
               searches := searches pg ++
                 [{| profilePromise := AwaitFetch; reposPromise := AwaitFetch;
                     outcome := None |}] |} ->
      loading st' = true ->
      stepped h pg pg'
  | stepped_event (i : nat) (s s' : Search) (st' : App) :
      searches pg !! i = Some s ->
      pg' = {| app := st'; searches := <[i := s']> (searches pg) |} ->
      handled h s (app pg) (s', st') ->
      stepped h pg pg'.

(** Search [n] runs alone on the page: it is the last one started, the
    earlier ones have settled, and the display is what it has made of it. *)
Definition alone (strict : bool) (n : nat) (pg : Page) : Prop :=
  length (searches pg) = S n /\
  (forall j sj, searches pg !! j = Some sj -> j <> n -> concluded sj = true) /\
  exists s, searches pg !! n = Some s /\
    (outcome s = None ->
     loading (app pg) = true /\ errorShown (app pg) = false /\
     profileShown (app pg) = false) /\
    errorShown (app pg) && profileShown (app pg) = false /\
    (strict = true -> outcome s <> None ->
     errorShown (app pg) = negb (profileShown (app pg)) /\ loading (app pg) = false).

(** The message with which the profile promise rejects on answer [a], if
    it does so without reading a body. *)
Definition profile_failure (a : settled (Response Profile)) : option string :=
  match a with
  | Rejected message => Some message
  | Fulfilled response =>
      if ok response then None else Some (profile_error_message (status response))
  end.

(** The host [h] with [first] as the promise that settles first. *)
Definition with_order (first : bool) (h : Host) : Host :=
  {| now := now h; LocalTZA := LocalTZA h; Date_parse := Date_parse h;
     fetch_user := fetch_user h; fetch_repos := fetch_repos h;
     profile_settles_first := first |}.

(** The event brings search [n], for username [u], what the host [h] holds
    for its requests. *)
Definition answers (h : Host) (u : string) (n : nat) (ev : Event) : Prop :=
  match ev with
  | ProfileAnswer i a => i = n /\ a = fetch_user h (user_url u)
  | ProfileBody i => i = n
  | ReposAnswer i a => i = n /\ a = fetch_repos h (repos_url u)
  | ReposBody i => i = n
  | _ => False
  end.

(** The instance while search [s], started from [st0], is answered by [h]
    and nothing else happens. *)
Definition expected (h : Host) (st0 : App) (s : Search) : App :=
  let u := JS.trim (usernameInput st0) in
  let rl := match profilePromise s with
            | AwaitFetch => rateLimit st0
            | _ => rateLimit_after h u (rateLimit st0)
            end in
  let st := set_rateLimit rl
              (log_request (repos_url u)
                 (log_request (user_url u) (hideProfile (hideError (showLoading st0))))) in
  match outcome s with
  | None => st
  | Some o => handleSearch_resume h o st
  end.

(** The promises of [s] are as far as the answers of [h] have taken them. *)
Definition consistent (h : Host) (u : string) (s : Search) : Prop :=
  match profilePromise s with
  | AwaitFetch => True
  | AwaitJson r => fetch_user h (user_url u) = Fulfilled r /\ ok r = true
  | Done x => x = profile_settlement h u
  end /\
  match reposPromise s with
  | AwaitFetch => True
  | AwaitJson r => fetch_repos h (repos_url u) = Fulfilled r /\ ok r = true
  | Done y => y = repos_settlement h u
  end /\
  match outcome s with
  | None =>
      (forall m, profilePromise s <> Done (Rejected m)) /\
      (forall m, reposPromise s <> Done (Rejected m)) /\
      (forall p r, profilePromise s = Done (Fulfilled p) ->
                   reposPromise s = Done (Fulfilled r) -> False)
  | Some (Rejected m) =>
      profilePromise s = Done (Rejected m) \/ reposPromise s = Done (Rejected m)
  | Some (Fulfilled (p, r)) =>
      profilePromise s = Done (Fulfilled p) /\ reposPromise s = Done (Fulfilled r)
  end.

(** The case analysis on the promises of a search and what is left of it. *)
Ltac settle_cases :=
  cbn [profilePromise reposPromise outcome fst snd] in *;
  repeat match goal with
    | o : option (settled _) |- _ => destruct o as [[[? ?]|?]|]
    | x : Stage _ |- _ => destruct x as [|?|[?|?]]
    | H : _ /\ _ |- _ => destruct H
    end;
  cbn [profilePromise reposPromise outcome fst snd handleSearch_resume] in *;
  repeat split; intros; subst;
  try reflexivity; try congruence; try tauto;
  try (intuition congruence).

(** ** A sample host and sample data, for the concrete cases *)

Definition octocat : Profile :=
  {| login := "octocat"; name := Some "The Octocat"; bio := None;
     followers := 1500; following := 9; public_repos := 8;
     location := Some "San Francisco"; blog := Some "https://github.blog";
     created_at := "2011-01-25T18:44:36Z"; company := Some "@github";
     avatar_url := "https://avatars.githubusercontent.com/u/583231";
     html_url := "https://github.com/octocat" |}.

(** The request is answered with status [code], headers [hs] and [body]. *)
Definition answer {A} (code : Z) (hs : gmap string string) (body : settled A)
    : settled (Response A) :=
  Fulfilled {| status := code; headers := hs; json := body |}.

(** A [Date.parse] that accepts the timestamps of the GitHub API only. *)
Definition utc_parse (s : string) : JS.number :=
  match JS.parse_utc_timestamp s with
  | Some t => JS.Int t
  | None => JS.NaN
  end.

(** A host in UTC whose clock reads 2023-11-14T22:13:20Z and which gives
    every request the same two answers. *)
Definition sample_host (user : settled (Response Profile))
    (repos : settled (Response (list Repository))) (first : bool) : Host :=
  {| now := 1700000000000; LocalTZA := fun _ => 0; Date_parse := utc_parse;
     fetch_user := fun _ => user; fetch_repos := fun _ => repos;
     profile_settles_first := first |}.

(** Rate-limit headers of an answer: 59 requests left, reset an hour after
    the sample clock. *)
Definition quota : gmap string string :=
  {[ "x-ratelimit-remaining" := "59"; "x-ratelimit-reset" := "1700003600" ]}.

(** The instance with [input] typed in, no request left and reset time [s]. *)
Definition exhausted (input : string) (s : Z) : App :=
  set_rateLimit {| remaining := JS.Int 0; reset := JS.Int s |} (initial input).

(** A session whose history of three names is in storage. *)
Definition sample_session : Session :=
  {| history := ["torvalds"; "gaearon"; "octocat"];
     localStorage := {[ history_key := Json ["torvalds"; "gaearon"; "octocat"] ]} |}.

(** Headers of an answer that leaves no request until an hour after the
    sample clock. *)
Definition spent : gmap string string :=
  {[ "x-ratelimit-remaining" := "0"; "x-ratelimit-reset" := "1700003600" ]}.

(** A repository of the sample user. *)
Definition hello_world : Repository :=
  {| repo_name := "Hello-World"; repo_html_url := "https://github.com/octocat/Hello-World";
     private := false; description := Some "My first <b>repository</b>";
     stargazers_count := 2500; forks_count := 1300; language := None |}.

(** The Escape key, no modifier held. *)
Definition escape : KeyEvent := {| key := "Escape"; ctrlKey := false; metaKey := false |}.

(** * Properties *)

(** ** Strings *)

Lemma trimStart_whitespace (s : string) :
  JS.all_chars JS.isWhiteSpace s = true -> JS.trimStart s = "".
Proof.
  induction s as [|c r IH]; simpl; [reflexivity|].
  intros [Hc Hr]%andb_prop. rewrite Hc. auto.
Qed.

Lemma trim_whitespace (s : string) :
  JS.all_chars JS.isWhiteSpace s = true -> JS.trim s = "".
Proof.
  intros H. unfold JS.trim. rewrite trimStart_whitespace by assumption. reflexivity.
Qed.

Lemma trimEnd_nonempty (c : ascii) (r : string) :
  JS.isWhiteSpace c = false -> JS.trimEnd (String c r) <> "".
Proof.
  intros Hc. simpl. destruct (JS.trimEnd r); [rewrite Hc|]; discriminate.
Qed.

Lemma trimStart_empty (s : string) :
  JS.trimStart s = "" -> JS.all_chars JS.isWhiteSpace s = true.
Proof.
  induction s as [|c r IH]; simpl; [reflexivity|].
  destruct (JS.isWhiteSpace c) eqn:Hc; [auto | discriminate].
Qed.

Lemma trimStart_head (s : string) (c : ascii) (r : string) :
  JS.trimStart s = String c r -> JS.isWhiteSpace c = false.
Proof.
  induction s as [|d t IH]; simpl; [discriminate|].
  destruct (JS.isWhiteSpace d) eqn:Hd; [assumption|].
  intros [= <- <-]. assumption.
Qed.

(** [trim] leaves nothing exactly of the strings made of white space. *)
Lemma trim_empty_iff (s : string) :
  JS.trim s = "" <-> JS.all_chars JS.isWhiteSpace s = true.
Proof.
  split; [|apply trim_whitespace].
  unfold JS.trim. destruct (JS.trimStart s) as [|c r] eqn:E.
  - intros _. apply trimStart_empty. assumption.
  - intros H. exfalso. revert H. apply trimEnd_nonempty.
    eapply trimStart_head. eassumption.
Qed.

Lemma truthy_false (s : string) : JS.truthy s = false <-> s = "".
Proof. destruct s; simpl; split; congruence. Qed.

(** ** Rate gate *)

Lemma checkRateLimit_false_iff (t : Z) (rl : RateLimit) :
  checkRateLimit t rl = false <->
  exists r s, remaining rl = JS.Int r /\ reset rl = JS.Int s /\
              r <= 0 /\ Z.abs (s * 1000) <= JS.maxTime /\ t < s * 1000.
Proof.
  unfold checkRateLimit, JS.le_zero, JS.times1000, JS.TimeClip, JS.lt.
  destruct rl as [[|r] [|s]]; simpl;
    try (split; [discriminate | intros (? & ? & ? & ? & _); discriminate]).
  - destruct (Z.leb_spec r 0);
      (split; [discriminate | intros (? & ? & _ & ? & _); discriminate]).
  - destruct (Z.leb_spec r 0), (Z.leb_spec (Z.abs (s * 1000)) JS.maxTime);
      try destruct (Z.ltb_spec t (s * 1000));
      (split; [first [discriminate | intros _; exists r, s; repeat split; lia]
              | first [reflexivity
                      | intros (? & ? & [= <-] & [= <-] & ?); lia]]).
Qed.

(** C3, as amended: on integer fields, checkRateLimit returns false exactly
    when remaining <= 0, the clock reading (in milliseconds) is strictly
    before reset * 1000, and reset * 1000 lies within the range of a Date
    (magnitude at most 8.64e15); in every other state it returns true. *)
Theorem checkRateLimit_blocks_iff (t r s : Z) :
  checkRateLimit t {| remaining := JS.Int r; reset := JS.Int s |} = false <->
  r <= 0 /\ t < s * 1000 /\ Z.abs (s * 1000) <= JS.maxTime.
Proof.
  rewrite checkRateLimit_false_iff. simpl. split.
  - intros (? & ? & [= <-] & [= <-] & ?). lia.
  - intros ?. exists r, s. repeat split; lia.
Qed.

(** C3, as stated, fails: with no request left and a reset time of 10^13
    seconds, still ahead of the clock, the Date made of reset * 1000 is
    invalid and checkRateLimit returns true. *)
Lemma checkRateLimit_far_reset :
  let t := 1700000000000 in
  let r := 0 in
  let s := 10000000000000 in
  ~ (checkRateLimit t {| remaining := JS.Int r; reset := JS.Int s |} = false <->
     r <= 0 /\ t < s * 1000).
Proof.
  simpl. intros [_ H]. discriminate H. lia.
Qed.

Lemma parseInt_or_else (header : option string) :
  unusable header -> JS.parseInt (or_else header "0") = stored_for header.
Proof.
  intros H. destruct header as [v|]; simpl; [|reflexivity].
  destruct (JS.truthy v); [apply H|]; reflexivity.
Qed.

(** C5, as amended: when the rate-limit headers of a response are absent or
    unparseable, updateRateLimit stores 0 for an absent (or empty) header
    and NaN for an unparseable one, for remaining and for reset alike (so
    remaining = 0 and reset = 0 when both are absent), and checkRateLimit
    then returns true at every clock reading not before the epoch. *)
Theorem updateRateLimit_unusable_headers (hs : gmap string string) (t : Z) :
  0 <= t ->
  unusable (Headers_get hs "X-RateLimit-Remaining") ->
  unusable (Headers_get hs "X-RateLimit-Reset") ->
  remaining (updateRateLimit hs) = stored_for (Headers_get hs "X-RateLimit-Remaining") /\
  reset (updateRateLimit hs) = stored_for (Headers_get hs "X-RateLimit-Reset") /\
  checkRateLimit t (updateRateLimit hs) = true.
Proof.
  intros Ht Hrem Hres.
  pose proof (parseInt_or_else _ Hrem) as Erem.
  pose proof (parseInt_or_else _ Hres) as Eres.
  unfold updateRateLimit. simpl. repeat split; [assumption | assumption |].
  destruct (checkRateLimit t _) eqn:E; [reflexivity|]. exfalso.
  apply checkRateLimit_false_iff in E.
  destruct E as (r & s & Er & Es & Hr & _ & Hs). simpl in Er, Es.
  rewrite Eres in Es. unfold stored_for in Es.
  destruct (Headers_get hs "X-RateLimit-Reset") as [v|].
  - destruct (JS.truthy v); [discriminate|]. injection Es as <-. lia.
  - injection Es as <-. lia.
Qed.

Lemma updateRateLimit_unusable_headers_witness :
  remaining (updateRateLimit ∅) = stored_for (Headers_get ∅ "X-RateLimit-Remaining") /\
  reset (updateRateLimit ∅) = stored_for (Headers_get ∅ "X-RateLimit-Reset") /\
  checkRateLimit 1700000000000 (updateRateLimit ∅) = true.
Proof.
  apply (updateRateLimit_unusable_headers ∅ 1700000000000).
  - lia.
  - intros v H. vm_compute in H. discriminate.
  - intros v H. vm_compute in H. discriminate.
Defined.

(** C5, as stated, fails: an unparseable X-RateLimit-Remaining header is
    truthy, so it reaches parseInt and NaN is stored, not 0. *)
Lemma updateRateLimit_unparseable_remaining :
  let hs : gmap string string := {[ "x-ratelimit-remaining" := "unlimited" ]} in
  Headers_get hs "X-RateLimit-Remaining" = Some "unlimited" /\
  remaining (updateRateLimit hs) = JS.NaN /\
  remaining (updateRateLimit hs) <> JS.Int 0.
Proof. vm_compute. repeat split. discriminate. Qed.

(** ** Search pipeline *)

(** C8: when the input is empty or made of white space only, handleSearch
    does nothing but show 'Please enter a GitHub username', whatever the
    rate limit state and the host are: the result is InvalidInput, the rate
    gate is not consulted and no request is issued. *)
Theorem handleSearch_blank_input (h : Host) (st : App) :
  JS.all_chars JS.isWhiteSpace (usernameInput st) = true ->
  handleSearch h st = showError "Please enter a GitHub username" st /\
  result (handleSearch h st) = Failure InvalidInput /\
  requests (handleSearch h st) = requests st /\
  rateLimit (handleSearch h st) = rateLimit st.
Proof.
  intros H. assert (E : handleSearch h st = showError "Please enter a GitHub username" st).
  { unfold handleSearch. rewrite trim_whitespace by assumption. reflexivity. }
  rewrite E. repeat split.
Qed.

Lemma handleSearch_blank_input_witness :
  let h := sample_host (answer 200 quota (Fulfilled octocat)) (answer 200 ∅ (Fulfilled [])) true in
  let st := initial "   " in
  handleSearch h st = showError "Please enter a GitHub username" st /\
  result (handleSearch h st) = Failure InvalidInput /\
  requests (handleSearch h st) = requests st /\
  rateLimit (handleSearch h st) = rateLimit st.
Proof.
  apply handleSearch_blank_input. reflexivity.
Defined.

Lemma error_kind_profile_error_message (code : Z) :
  error_kind (profile_error_message code) = profile_error code.
Proof.
  unfold profile_error_message, profile_error.
  destruct (code =? 404); [reflexivity|]. destruct (code =? 403); reflexivity.
Qed.

Lemma handleSearch_admitted (h : Host) (st : App) :
  admitted h st ->
  handleSearch h st =
    let username := JS.trim (usernameInput st) in
    let st0 := hideProfile (hideError (showLoading st)) in
    let '(st1, p) := fetchUserProfile h username st0 in
    let '(st2, q) := fetchUserRepositories h username st1 in
    match Promise_all (profile_settles_first h) p q with
    | Fulfilled (profile, repos) => hideLoading (displayProfile h profile repos st2)
    | Rejected message => handleError message (hideLoading st2)
    end.
Proof.
  intros [Hu Hg]. unfold handleSearch. rewrite Hg.
  destruct (JS.trim (usernameInput st)); [congruence | reflexivity].
Qed.

Lemma fetchUserProfile_not_ok (h : Host) (u : string) (st : App) (response : Response Profile) :
  fetch_user h (user_url u) = Fulfilled response ->
  ok response = false ->
  fetchUserProfile h u st =
    (log_request (user_url u) st, Rejected (profile_error_message (status response))).
Proof.
  intros Hf Hok. unfold fetchUserProfile, await, fetch, throw, profile_error_message.
  rewrite Hf, Hok. simpl.
  destruct (status response =? 404); [reflexivity|].
  destruct (status response =? 403); reflexivity.
Qed.


Lemma fetchUserProfile_transport (h : Host) (u : string) (st : App) (message : string) :
  fetch_user h (user_url u) = Rejected message ->
  fetchUserProfile h u st = (log_request (user_url u) st, Rejected message).
Proof.
  intros Hf. unfold fetchUserProfile, await, fetch. rewrite Hf. reflexivity.
Qed.

Lemma fetchUserRepositories_settles (h : Host) (u : string) (st : App) :
  fetchUserRepositories h u st = (log_request (repos_url u) st, repos_settlement h u).
Proof.
  unfold fetchUserRepositories, repos_settlement, await, fetch, resolve, settle.
  destruct (fetch_repos h (repos_url u)) as [response|message]; [|reflexivity].
  destruct (ok response); reflexivity.
Qed.

(** X28: when the profile request of an admitted search is answered with
    a non-success status, and the repositories promise does not reject
    before it (the profile promise settles first, or the repositories
    promise is fulfilled), the search shows the error fixed by that status
    alone: UserNotFound for 404, RateLimited for 403, FetchFailed for any
    other. *)
Theorem profile_status_decides_error (h : Host) (st : App) (response : Response Profile) :
  admitted h st ->
  fetch_user h (user_url (JS.trim (usernameInput st))) = Fulfilled response ->
  ok response = false ->
  (profile_settles_first h = true \/
   exists repos, repos_settlement h (JS.trim (usernameInput st)) = Fulfilled repos) ->
  errorShown (handleSearch h st) = true /\
  errorText (handleSearch h st) = profile_error_message (status response) /\
  result (handleSearch h st) = Failure (profile_error (status response)).
Proof.
  intros Hadm Hf Hok Hrepos.
  assert (E : handleSearch h st =
              handleError (profile_error_message (status response))
                (hideLoading
                   (log_request (repos_url (JS.trim (usernameInput st)))
                      (log_request (user_url (JS.trim (usernameInput st)))
                         (hideProfile (hideError (showLoading st))))))).
  { rewrite handleSearch_admitted by assumption. cbv zeta.
    rewrite (fetchUserProfile_not_ok h _ _ response Hf Hok).
    rewrite fetchUserRepositories_settles.
    destruct Hrepos as [Hfirst | [repos Hq]].
    - rewrite Hfirst. destruct (repos_settlement h _); reflexivity.
    - rewrite Hq. reflexivity. }
  rewrite E. unfold result. simpl.
  rewrite error_kind_profile_error_message. repeat split.
Qed.

Lemma profile_status_decides_error_witness :
  let h := sample_host (answer 404 ∅ (Rejected "Unexpected end of JSON input"))
                       (Rejected "Failed to fetch") true in
  let st := initial " octocat " in
  errorShown (handleSearch h st) = true /\
  errorText (handleSearch h st) = "User not found. Please check the username and try again." /\
  result (handleSearch h st) = Failure UserNotFound.
Proof.
  apply (profile_status_decides_error
           (sample_host (answer 404 ∅ (Rejected "Unexpected end of JSON input"))
                        (Rejected "Failed to fetch") true)
           (initial " octocat ")
           {| status := 404; headers := ∅; json := Rejected "Unexpected end of JSON input" |}).
  - split; [discriminate | reflexivity].
  - reflexivity.
  - reflexivity.
  - left. reflexivity.
Defined.

(** C1: the code at the failing input.  The profile request is answered
    404, the repositories request meets a transport error and its promise
    rejects first: the search shows the transport error (FetchFailed) where
    the claim has UserNotFound.  [fetchUserRepositories] awaits [fetch]
    outside any try/catch, although its own path for an answer that is not
    ok absorbs the failure. *)
Lemma repos_rejection_overrides_404 :
  let h := sample_host (answer 404 ∅ (Rejected "Unexpected end of JSON input"))
                       (Rejected "Failed to fetch") false in
  let st := initial "octocat" in
  admitted h st /\
  errorText (handleSearch h st) = "Failed to fetch" /\
  result (handleSearch h st) = Failure FetchFailed /\
  result (handleSearch h st) <> Failure UserNotFound.
Proof.
  vm_compute. repeat split; discriminate.
Qed.



(** C2: the code at the failing input.  The profile request succeeds and
    the repositories request meets a transport error: the search shows that
    error and no profile, where the claim has a success with an empty
    repository list.  The defect is the one of C1: [fetchUserRepositories]
    awaits [fetch] outside any try/catch. *)
Lemma repos_transport_error_fails_search :
  let h := sample_host (answer 200 quota (Fulfilled octocat)) (Rejected "Failed to fetch") true in
  let st := initial "octocat" in
  admitted h st /\
  fetchUserProfile h "octocat" st =
    (set_rateLimit (updateRateLimit quota) (log_request (user_url "octocat") st),
     Fulfilled octocat) /\
  result (handleSearch h st) = Failure FetchFailed /\
  errorText (handleSearch h st) = "Failed to fetch" /\
  profileShown (handleSearch h st) = false.
Proof.
  vm_compute. repeat split; discriminate.
Qed.

(** C4, as amended: when the username is not blank, remaining is 0, and the
    clock reading is strictly before reset * 1000, itself within the range
    of a Date (magnitude at most 8.64e15), handleSearch only shows 'Rate
    limit exceeded. Please try again later.': the result is RateLimited and
    no request is issued. *)
Theorem handleSearch_gate_closed (h : Host) (st : App) (s : Z) :
  JS.trim (usernameInput st) <> "" ->
  rateLimit st = {| remaining := JS.Int 0; reset := JS.Int s |} ->
  now h < s * 1000 ->
  Z.abs (s * 1000) <= JS.maxTime ->
  handleSearch h st = showError "Rate limit exceeded. Please try again later." st /\
  result (handleSearch h st) = Failure RateLimited /\
  requests (handleSearch h st) = requests st.
Proof.
  intros Hu Hrl Hnow Hrange.
  assert (Hg : checkRateLimit (now h) (rateLimit st) = false).
  { rewrite Hrl. apply checkRateLimit_false_iff. exists 0, s. simpl. repeat split; lia. }
  assert (E : handleSearch h st = showError "Rate limit exceeded. Please try again later." st).
  { unfold handleSearch. rewrite Hg.
    destruct (JS.trim (usernameInput st)); [congruence | reflexivity]. }
  rewrite E. repeat split.
Qed.

Lemma handleSearch_gate_closed_witness :
  let h := sample_host (answer 200 quota (Fulfilled octocat)) (answer 200 ∅ (Fulfilled [])) true in
  let st := exhausted "octocat" 1700003600 in
  handleSearch h st = showError "Rate limit exceeded. Please try again later." st /\
  result (handleSearch h st) = Failure RateLimited /\
  requests (handleSearch h st) = requests st.
Proof.
  apply (handleSearch_gate_closed
           (sample_host (answer 200 quota (Fulfilled octocat)) (answer 200 ∅ (Fulfilled [])) true)
           (exhausted "octocat" 1700003600) 1700003600).
  - discriminate.
  - reflexivity.
  - reflexivity.
  - vm_compute. discriminate.
Defined.

(** C4, as stated, fails.  With remaining 0 and a reset time of 10^13
    seconds, ahead of the clock, the Date made of reset * 1000 is invalid,
    the rate gate stays open and both requests are issued.  And a username
    of white space only, though not empty, is rejected as InvalidInput
    before the rate gate is consulted. *)
Lemma gate_open_despite_exhausted_quota :
  let h := sample_host (answer 200 quota (Fulfilled octocat)) (answer 200 ∅ (Fulfilled [])) true in
  (let st := exhausted "octocat" 10000000000000 in
   now h < 10000000000000 * 1000 /\
   requests (handleSearch h st) = [user_url "octocat"; repos_url "octocat"] /\
   result (handleSearch h st) <> Failure RateLimited) /\
  (let st := exhausted " " 1700003600 in
   now h < 1700003600 * 1000 /\
   result (handleSearch h st) = Failure InvalidInput).
Proof.
  vm_compute. repeat split; discriminate.
Qed.

(** ** Division in binary64 *)

Module Binary64.

(** [Zdigits2] is the bit length. *)
Lemma digits2_pos_size (p : positive) : digits2_pos p = Pos.size p.
Proof. induction p as [p IH|p IH|]; simpl; [rewrite IH..|]; reflexivity. Qed.

Lemma Zdigits2_log2 (z : Z) : 0 < z -> Zdigits2 z = Z.log2 z + 1.
Proof.
  destruct z as [|p|p]; try lia. intros _. unfold Zdigits2.
  rewrite digits2_pos_size. destruct p; simpl; lia.
Qed.

Lemma Zdigits2_bounds (z k : Z) : 0 < k -> 2 ^ (k - 1) <= z < 2 ^ k -> Zdigits2 z = k.
Proof.
  intros Hk Hz. assert (0 < z) by (pose proof (Z.pow_pos_nonneg 2 (k - 1)); lia).
  rewrite Zdigits2_log2 by assumption.
  rewrite (Z.log2_unique z (k - 1)); [lia | lia |].
  replace (Z.succ (k - 1)) with k by lia. exact Hz.
Qed.

Lemma fexp_normal (k : Z) : -1021 <= k -> fexp JS.prec JS.emax k = k - 53.
Proof. unfold fexp, emin, JS.prec, JS.emax. lia. Qed.

(** Rounding a mantissa of 53 bits shifts nothing; one of 54 bits is
    shifted by one place. *)
Lemma shr_fexp_53 (m e : Z) (l : SpecFloat.location) :
  2 ^ 52 <= m < 2 ^ 53 -> -1074 <= e ->
  shr_fexp JS.prec JS.emax m e l = (shr_record_of_loc m l, e).
Proof.
  intros Hm He. unfold shr_fexp. rewrite (Zdigits2_bounds m 53) by lia.
  rewrite fexp_normal by lia. replace (53 + e - 53 - e) with 0 by lia. reflexivity.
Qed.

Lemma shr_fexp_54 (m e : Z) (l : SpecFloat.location) :
  2 ^ 53 <= m < 2 ^ 54 -> -1074 <= e ->
  shr_fexp JS.prec JS.emax m e l = (shr_1 (shr_record_of_loc m l), e + 1).
Proof.
  intros Hm He. unfold shr_fexp. rewrite (Zdigits2_bounds m 54) by lia.
  rewrite fexp_normal by lia. replace (54 + e - 53 - e) with 1 by lia. reflexivity.
Qed.

Lemma loc_of_shr_record_of_loc (m : Z) (l : SpecFloat.location) :
  loc_of_shr_record (shr_record_of_loc m l) = l.
Proof. destruct l as [|[]]; reflexivity. Qed.

Lemma shr_m_of_loc (m : Z) (l : SpecFloat.location) : shr_m (shr_record_of_loc m l) = m.
Proof. destruct l as [|[]]; reflexivity. Qed.

Lemma round_nearest_even_range (m : Z) (l : SpecFloat.location) :
  m <= round_nearest_even m l <= m + 1.
Proof. unfold round_nearest_even. destruct l as [|[]]; try destruct (Z.even m); lia. Qed.

(** The last step of [binary_round_aux], on a mantissa of 53 bits or on
    2^53 itself (a carry of the rounding). *)
Lemma pack_53 (s : bool) (m e : Z) :
  2 ^ 52 <= m <= 2 ^ 53 -> -1074 <= e <= 960 ->
  exists (m' : positive) (e' : Z),
    (let '(mrs, e'') := shr_fexp JS.prec JS.emax m e loc_Exact in
     match shr_m mrs with
     | Z0 => S754_zero s
     | Zpos m0 => if e'' <=? JS.emax - JS.prec then S754_finite s m0 e'' else S754_infinity s
     | Zneg _ => S754_nan
     end) = S754_finite s m' e' /\
    e <= e' <= e + 1 /\ Zpos m' * 2 ^ (e' - e) = m.
Proof.
  intros Hm He. destruct (Z.eq_dec m (2 ^ 53)) as [->|Hne].
  - rewrite shr_fexp_54 by lia. simpl.
    destruct (Z.leb_spec (e + 1) (JS.emax - JS.prec)); [|unfold JS.emax, JS.prec in *; lia].
    eexists _, _. split; [reflexivity|]. split; [lia|].
    replace (e + 1 - e) with 1 by lia. reflexivity.
  - rewrite shr_fexp_53 by lia. simpl.
    destruct m as [|p|p]; try lia.
    destruct (Z.leb_spec e (JS.emax - JS.prec)); [|unfold JS.emax, JS.prec in *; lia].
    exists p, e. split; [reflexivity|]. split; [lia|].
    replace (e - e) with 0 by lia. lia.
Qed.

Lemma round_aux_exact (s : bool) (m : positive) (e : Z) :
  2 ^ 52 <= Zpos m < 2 ^ 53 -> -1074 <= e <= 900 ->
  binary_round_aux JS.prec JS.emax s (Zpos m) e loc_Exact = S754_finite s m e.
Proof.
  intros Hm He. unfold binary_round_aux.
  rewrite shr_fexp_53 by lia. cbn [shr_record_of_loc shr_m loc_of_shr_record round_nearest_even].
  rewrite shr_fexp_53 by lia. cbn [shr_record_of_loc shr_m].
  destruct (Z.leb_spec e (JS.emax - JS.prec)); [reflexivity | unfold JS.emax, JS.prec in *; lia].
Qed.

Lemma round_aux_53 (s : bool) (m e : Z) (l : SpecFloat.location) :
  2 ^ 52 <= m < 2 ^ 53 -> -1074 <= e <= 900 ->
  exists (m' : positive) (e' : Z),
    binary_round_aux JS.prec JS.emax s m e l = S754_finite s m' e' /\
    e <= e' <= e + 1 /\ m <= Zpos m' * 2 ^ (e' - e) <= m + 1.
Proof.
  intros Hm He. unfold binary_round_aux. rewrite shr_fexp_53 by lia.
  rewrite shr_m_of_loc, loc_of_shr_record_of_loc.
  pose proof (round_nearest_even_range m l) as Hr.
  destruct (pack_53 s (round_nearest_even m l) e) as (m' & e' & E & He' & Hv); [lia | lia |].
  exists m', e'. split; [exact E|]. split; [exact He' | lia].
Qed.

Lemma shr_1_m (r : shr_record) : 0 < shr_m r -> shr_m (shr_1 r) = shr_m r / 2.
Proof.
  destruct r as [m rb sb]. simpl. intros Hm.
  destruct m as [|[p|p|]|p]; try lia; simpl.
  - rewrite Pos2Z.inj_xI. Z.div_mod_to_equations. lia.
  - rewrite Pos2Z.inj_xO. Z.div_mod_to_equations. lia.
  - reflexivity.
Qed.

Lemma round_aux_54 (s : bool) (m e : Z) (l : SpecFloat.location) :
  2 ^ 53 <= m < 2 ^ 54 -> -1074 <= e <= 900 ->
  exists (m' : positive) (e' : Z),
    binary_round_aux JS.prec JS.emax s m e l = S754_finite s m' e' /\
    e + 1 <= e' <= e + 2 /\ m - 1 <= Zpos m' * 2 ^ (e' - e) <= m + 2.
Proof.
  intros Hm He.
  assert (Hhalf : 2 ^ 52 <= m / 2 < 2 ^ 53).
  { change (2 ^ 52) with 4503599627370496. change (2 ^ 53) with 9007199254740992 in *.
    change (2 ^ 54) with 18014398509481984 in *. Z.div_mod_to_equations. lia. }
  unfold binary_round_aux. rewrite shr_fexp_54 by lia.
  set (r := shr_1 (shr_record_of_loc m l)).
  assert (Hr : shr_m r = m / 2).
  { subst r. rewrite shr_1_m; rewrite shr_m_of_loc; [reflexivity | lia]. }
  clearbody r.
  pose proof (round_nearest_even_range (shr_m r) (loc_of_shr_record r)) as Hrn.
  destruct (pack_53 s (round_nearest_even (shr_m r) (loc_of_shr_record r)) (e + 1))
    as (m' & e' & E & He' & Hv); [lia | lia |].
  exists m', e'. split; [exact E|]. split; [lia|].
  replace (e' - e) with (e' - (e + 1) + 1) by lia.
  rewrite Z.pow_add_r by lia. change (2 ^ 1) with 2.
  rewrite Z.mul_assoc, Hv. Z.div_mod_to_equations. lia.
Qed.

Lemma log2_small (n : Z) : 0 < n < 2 ^ 53 -> 0 <= Z.log2 n <= 52.
Proof.
  intros Hn. split; [apply Z.log2_nonneg|].
  assert (Z.log2 n < 53) by (apply Z.log2_lt_pow2; lia). lia.
Qed.

(** Shifted so that its leading bit is bit 52, a positive integer below 2^53
    becomes a mantissa of 53 bits. *)
Lemma scaled_mantissa (n : Z) :
  0 < n < 2 ^ 53 -> 2 ^ 52 <= n * 2 ^ (52 - Z.log2 n) < 2 ^ 53.
Proof.
  intros Hn. pose proof (log2_small n Hn) as HL.
  pose proof (Z.log2_spec n ltac:(lia)) as Hspec.
  set (L := Z.log2 n) in *.
  replace (2 ^ 52) with (2 ^ L * 2 ^ (52 - L)) by (rewrite <- Z.pow_add_r by lia; f_equal; lia).
  replace (2 ^ 53) with (2 ^ Z.succ L * 2 ^ (52 - L))
    by (rewrite <- Z.pow_add_r by lia; f_equal; lia).
  pose proof (Z.pow_pos_nonneg 2 (52 - L) ltac:(lia) ltac:(lia)). nia.
Qed.

(** An integer below 2^53 is a Number exactly. *)
Lemma Number_of_Z_normal (n : Z) :
  0 < n < 2 ^ 53 ->
  exists m : positive,
    JS.Number_of_Z n = S754_finite false m (Z.log2 n - 52) /\
    Zpos m = n * 2 ^ (52 - Z.log2 n).
Proof.
  intros Hn. pose proof (log2_small n Hn) as HL.
  pose proof (scaled_mantissa n Hn) as Hscale.
  destruct n as [|p|p]; try lia.
  unfold JS.Number_of_Z, binary_normalize, binary_round.
  assert (Hd : Zpos (digits2_pos p) = Z.log2 (Zpos p) + 1)
    by (apply (Zdigits2_log2 (Zpos p)); lia).
  rewrite Hd. rewrite fexp_normal by lia.
  set (L := Z.log2 (Zpos p)) in *. unfold shl_align.
  replace (L + 1 + 0 - 53 - 0) with (L - 52) by lia.
  destruct (L - 52) as [|q|q] eqn:EL; try lia.
  - assert (L = 52) by lia. replace (52 - L) with 0 in * by lia.
    rewrite Z.mul_1_r in Hscale. rewrite round_aux_exact by lia.
    exists p. split; [f_equal; lia | lia].
  - assert (Hq : 52 - L = Zpos q) by lia. rewrite Hq in *.
    assert (Hsh : Zpos (Pos.iter xO p q) = Zpos p * 2 ^ Zpos q).
    { change (Pos.iter xO p q) with (shift_pos q p). rewrite shift_pos_correct.
      rewrite Z.pow_pos_fold. lia. }
    rewrite round_aux_exact by lia.
    exists (Pos.iter xO p q). split; [f_equal; lia | exact Hsh].
Qed.

Lemma div_core (m1 m2 : positive) (e1 e2 : Z) :
  2 ^ 52 <= Zpos m1 < 2 ^ 53 -> 2 ^ 52 <= Zpos m2 < 2 ^ 53 ->
  -60 <= e1 - e2 <= 60 ->
  SFdiv_core_binary JS.prec JS.emax (Zpos m1) e1 (Zpos m2) e2 =
    (Zpos m1 * 2 ^ 53 / Zpos m2, e1 - e2 - 53,
     new_location (Zpos m2) ((Zpos m1 * 2 ^ 53) mod Zpos m2)).
Proof.
  intros H1 H2 He. unfold SFdiv_core_binary.
  rewrite (Zdigits2_bounds (Zpos m1) 53), (Zdigits2_bounds (Zpos m2) 53) by lia.
  replace (53 + e1 - (53 + e2)) with (e1 - e2) by lia.
  rewrite fexp_normal by lia.
  rewrite Z.min_l by lia.
  replace (e1 - e2 - (e1 - e2 - 53)) with 53 by lia.
  rewrite Z.shiftl_mul_pow2 by lia.
  unfold Z.div, Z.modulo.
  destruct (Z.div_eucl (Zpos m1 * 2 ^ 53) (Zpos m2)) as [q r]. reflexivity.
Qed.

(** The binary64 quotient of two positive integers, n below 2^52 and d below
    2^53, is a finite positive number M * 2^e with e <= 0, less than one
    unit in the last place away from n / d; as d * 2^e is below 1 this
    reads |d * M - n * 2^(-e)| < 2^(-e). *)
Lemma Number_div_faithful (n d : Z) :
  0 < n < 2 ^ 52 -> 0 < d < 2 ^ 53 ->
  exists (M : positive) (e : Z),
    JS.Number_div (JS.Number_of_Z n) (JS.Number_of_Z d) = S754_finite false M e /\
    e <= 0 /\
    Z.abs (d * Zpos M - n * 2 ^ (- e)) < 2 ^ (- e).
Proof.
  intros Hn Hd.
  destruct (Number_of_Z_normal n) as (m1 & E1 & V1); [lia|].
  destruct (Number_of_Z_normal d) as (m2 & E2 & V2); [lia|].
  pose proof (log2_small n ltac:(lia)) as HLn.
  pose proof (log2_small d ltac:(lia)) as HLd.
  assert (HLn' : Z.log2 n <= 51).
  { assert (Z.log2 n < 52) by (apply Z.log2_lt_pow2; lia). lia. }
  pose proof (Z.log2_spec n ltac:(lia)) as Sn.
  pose proof (Z.log2_spec d ltac:(lia)) as Sd.
  set (Ln := Z.log2 n) in *. set (Ld := Z.log2 d) in *.
  assert (B1 : 2 ^ 52 <= Zpos m1 < 2 ^ 53) by (rewrite V1; apply scaled_mantissa; lia).
  assert (B2 : 2 ^ 52 <= Zpos m2 < 2 ^ 53) by (rewrite V2; apply scaled_mantissa; lia).
  unfold JS.Number_div. rewrite E1, E2. cbn [SFdiv xorb].
  rewrite div_core by lia.
  set (q := Zpos m1 * 2 ^ 53 / Zpos m2).
  set (l := new_location _ _). clearbody l.
  set (e' := Ln - 52 - (Ld - 52) - 53).
  set (R := 2 ^ (- e')).
  (* q is the integer part of n * R / d *)
  assert (HR : 0 < R) by (apply Z.pow_pos_nonneg; lia).
  assert (Hq : q * d <= n * R < (q + 1) * d).
  { assert (Hdm : q * Zpos m2 <= Zpos m1 * 2 ^ 53 < (q + 1) * Zpos m2).
    { subst q. pose proof (Z.div_mod (Zpos m1 * 2 ^ 53) (Zpos m2) ltac:(lia)).
      pose proof (Z.mod_pos_bound (Zpos m1 * 2 ^ 53) (Zpos m2) ltac:(lia)). nia. }
    assert (HS : Zpos m1 * 2 ^ 53 = n * R * 2 ^ (52 - Ld)).
    { rewrite V1. subst R e'. rewrite <- !Z.mul_assoc. rewrite <- !Z.pow_add_r by lia.
      f_equal. f_equal. lia. }
    rewrite HS, V2 in Hdm.
    pose proof (Z.pow_pos_nonneg 2 (52 - Ld) ltac:(lia) ltac:(lia)). nia. }
  assert (HdR : 2 * d < R).
  { subst R e'. replace (- (Ln - 52 - (Ld - 52) - 53)) with (Z.succ Ld + (52 - Ln)) by lia.
    rewrite Z.pow_add_r by lia.
    assert (2 <= 2 ^ (52 - Ln)).
    { change 2 with (2 ^ 1) at 1. apply Z.pow_le_mono_r; lia. }
    nia. }
  assert (Bq : 2 ^ 52 <= q < 2 ^ 54).
  { subst q. split.
    - apply Z.div_le_lower_bound; [lia|]. nia.
    - apply Z.div_lt_upper_bound; [lia|]. nia. }
  assert (Final : forall (M : positive) (e : Z),
            e' <= e <= e' + 2 -> e <= 0 ->
            Z.abs (d * (Zpos M * 2 ^ (e - e')) - n * R) < R ->
            Z.abs (d * Zpos M - n * 2 ^ (- e)) < 2 ^ (- e)).
  { intros M e He He0 Hab.
    assert (ER : R = 2 ^ (- e) * 2 ^ (e - e')).
    { subst R. rewrite <- Z.pow_add_r by lia. f_equal. lia. }
    pose proof (Z.pow_pos_nonneg 2 (e - e') ltac:(lia) ltac:(lia)) as Hk.
    pose proof (Z.pow_pos_nonneg 2 (- e) ltac:(lia) ltac:(lia)) as HP.
    rewrite ER in Hab.
    replace (d * (Zpos M * 2 ^ (e - e')) - n * (2 ^ (- e) * 2 ^ (e - e')))
      with ((d * Zpos M - n * 2 ^ (- e)) * 2 ^ (e - e')) in Hab by ring.
    rewrite Z.abs_mul, (Z.abs_eq (2 ^ (e - e'))) in Hab by lia.
    nia. }
  destruct (Z.lt_ge_cases q (2 ^ 53)) as [Hlt|Hge].
  - destruct (round_aux_53 false q e' l) as (M & e & E & He & Hv); [lia | subst e'; lia |].
    exists M, e. split; [exact E|]. split; [subst e'; lia|].
    apply Final; [lia | subst e'; lia |]. apply Z.abs_lt. nia.
  - destruct (round_aux_54 false q e' l) as (M & e & E & He & Hv); [lia | subst e'; lia |].
    exists M, e. split; [exact E|]. split; [subst e'; lia|].
    apply Final; [lia | subst e'; lia |]. apply Z.abs_lt. nia.
Qed.

End Binary64.

(** *** toFixed(1) on a quotient of integers *)

Lemma tenths_spec (M : positive) (e : Z) :
  e <= 0 ->
  (2 * JS.tenths M e - 1) * 2 ^ (- e) <= 20 * Zpos M < (2 * JS.tenths M e + 1) * 2 ^ (- e).
Proof.
  intros He. unfold JS.tenths. destruct (Z.leb_spec 0 e).
  - replace e with 0 by lia. simpl (2 ^ _). simpl (- 0). change (2 ^ 0) with 1. lia.
  - pose proof (Z.pow_pos_nonneg 2 (- e) ltac:(lia) ltac:(lia)) as HP.
    set (P := 2 ^ (- e)) in *.
    pose proof (Z.div_mod (20 * Zpos M + P) (2 * P) ltac:(lia)) as Hdm.
    pose proof (Z.mod_pos_bound (20 * Zpos M + P) (2 * P) ltac:(lia)) as Hmod.
    set (t := (20 * Zpos M + P) / (2 * P)) in *. nia.
Qed.

Lemma toFixed1_finite (M : positive) (e : Z) :
  e <= 0 -> Zpos M < 10 ^ 21 * 2 ^ (- e) ->
  JS.toFixed1 (S754_finite false M e) = Some (one_decimal (JS.tenths M e)).
Proof.
  intros He HM. unfold JS.toFixed1.
  assert (E : JS.at_least_1e21 M e = false).
  { unfold JS.at_least_1e21. destruct (Z.leb_spec 0 e).
    - replace e with 0 in * by lia. change (2 ^ (- 0)) with 1 in HM. change (2 ^ 0) with 1.
      apply Z.leb_gt. lia.
    - apply Z.leb_gt. exact HM. }
  rewrite E. reflexivity.
Qed.

(** [(n / d).toFixed(1)] for d = 10 * D with D even: the digits of the
    integer t whose tenth is nearest to n / d. *)
Lemma toFixed1_quotient (n d D : Z) :
  0 < n < 2 ^ 52 -> 0 < d < 2 ^ 53 -> d = 10 * D -> Z.even D = true ->
  exists t : Z,
    JS.toFixed1 (JS.Number_div (JS.Number_of_Z n) (JS.Number_of_Z d)) = Some (one_decimal t) /\
    Z.abs (t * D - n) * 2 <= D.
Proof.
  intros Hn Hd HD Hev.
  destruct (Binary64.Number_div_faithful n d Hn Hd) as (M & e & E & He & Hab).
  pose proof (Z.pow_pos_nonneg 2 (- e) ltac:(lia) ltac:(lia)) as HP.
  set (P := 2 ^ (- e)) in *.
  apply Z.abs_lt in Hab.
  assert (HM : Zpos M < 10 ^ 21 * P).
  { assert (d * Zpos M < (n + 1) * P) by lia.
    assert (Zpos M < (n + 1) * P) by nia.
    assert ((n + 1) * P <= 10 ^ 21 * P) by (apply Z.mul_le_mono_nonneg_r; lia). lia. }
  exists (JS.tenths M e). split.
  - rewrite E. apply toFixed1_finite; assumption.
  - pose proof (tenths_spec M e He) as Ht. fold P in Ht.
    set (t := JS.tenths M e) in *.
    apply Z.even_spec in Hev. destruct Hev as [h Hh]. subst D.
    assert (U : (2 * t - 1) * (2 * h) - 2 * n - 2 < 0) by nia.
    assert (L : 2 * n - 2 - (2 * t + 1) * (2 * h) < 0) by nia.
    lia.
Qed.

(** ** Formatting helpers *)

(** C6, as amended: for a nonnegative integer n, formatNumber gives the
    plain decimal string when n is below 1,000; when n is at least 1,000 and
    below 1,000,000, the number of tenths nearest to n / 1000 (either one on
    a tie) printed with one decimal and suffixed 'K'; when n is at least
    1,000,000, the one-decimal rendering of n / 1000000 suffixed 'M', which
    for n below 2^52 is the number of tenths nearest to n / 1000000; so 999
    gives "999", 1000 gives "1.0K", 1500 gives "1.5K", 1000000 gives "1.0M"
    and 2500000 gives "2.5M". *)
Theorem formatNumber_thresholds (n : Z) :
  0 <= n ->
  (n < 1000 -> formatNumber n = Some (JS.decimal n)) /\
  (1000 <= n < 1000000 ->
   exists t : Z,
     formatNumber n = Some (one_decimal t +:+ "K") /\ Z.abs (t * 100 - n) <= 50) /\
  (1000000 <= n ->
   formatNumber n =
     (λ s, s +:+ "M") <$> JS.toFixed1 (JS.Number_div (JS.Number_of_Z n) (JS.Number_of_Z 1000000))) /\
  (1000000 <= n < 2 ^ 52 ->
   exists t : Z,
     formatNumber n = Some (one_decimal t +:+ "M") /\ Z.abs (t * 100000 - n) <= 50000) /\
  formatNumber 999 = Some "999" /\
  formatNumber 1000 = Some "1.0K" /\
  formatNumber 1500 = Some "1.5K" /\
  formatNumber 1000000 = Some "1.0M" /\
  formatNumber 2500000 = Some "2.5M".
Proof.
  intros Hn. split; [|split; [|split; [|split]]].
  - intros H. unfold formatNumber.
    destruct (Z.leb_spec 1000000 n); [lia|]. destruct (Z.leb_spec 1000 n); [lia|].
    unfold JS.Number_toString. destruct (Z.ltb_spec (Z.abs n) (2 ^ 53)); [reflexivity | lia].
  - intros H. unfold formatNumber.
    destruct (Z.leb_spec 1000000 n); [lia|]. destruct (Z.leb_spec 1000 n); [|lia].
    destruct (toFixed1_quotient n 1000 100) as (t & E & Ht); [lia | lia | reflexivity..|].
    exists t. rewrite E. split; [reflexivity | lia].
  - intros H. unfold formatNumber. destruct (Z.leb_spec 1000000 n); [reflexivity | lia].
  - intros H. unfold formatNumber. destruct (Z.leb_spec 1000000 n); [|lia].
    destruct (toFixed1_quotient n 1000000 100000) as (t & E & Ht); [lia | lia | reflexivity..|].
    exists t. rewrite E. split; [reflexivity | lia].
  - vm_compute. repeat split.
Qed.

Lemma formatNumber_thresholds_witness :
  exists t : Z,
    formatNumber 1500 = Some (one_decimal t +:+ "K") /\ Z.abs (t * 100 - 1500) <= 50.
Proof.
  refine (proj1 (proj2 (formatNumber_thresholds 1500 _)) _); lia.
Defined.

(** C6, as stated, fails at both thresholds: 1000 is not above 1,000 yet is
    abbreviated with 'K', and 1000000 is not above 1,000,000 yet is
    abbreviated with 'M'. *)
Lemma formatNumber_at_thresholds :
  formatNumber 1000 = Some "1.0K" /\ formatNumber 1000 <> Some "1000" /\
  formatNumber 1000000 = Some "1.0M" /\ formatNumber 1000000 <> Some "1000.0K".
Proof. vm_compute. repeat split; discriminate. Qed.

(** Halfway cases follow the binary64 quotient: 1.05 and 1.15 are not
    exact, 1.25 is. *)
Example formatNumber_halfway :
  formatNumber 1050 = Some "1.1K" /\ formatNumber 1150 = Some "1.1K" /\
  formatNumber 1250 = Some "1.3K" /\ formatNumber 999999 = Some "1000.0K".
Proof. vm_compute. repeat split. Qed.

(** ** Search history *)

Lemma length_pop (l : list string) : length (pop l) = Nat.pred (length l).
Proof.
  unfold pop. induction l as [|x [|y l] IH]; simpl in *; [reflexivity..|].
  rewrite IH. reflexivity.
Qed.

Lemma pop_sublist (l : list string) : pop l `sublist_of` l.
Proof.
  unfold pop. induction l as [|x [|y l] IH]; simpl in *.
  - constructor.
  - constructor. constructor.
  - constructor. exact IH.
Qed.

Lemma NoDup_pop (l : list string) : NoDup l -> NoDup (pop l).
Proof. intros H. eapply sublist_NoDup; [exact H | apply pop_sublist]. Qed.

Lemma addToHistory_bounded (username : string) (s : Session) :
  bounded (history s) -> bounded (history (addToHistory username s)).
Proof.
  intros [Hlen Hnd]. unfold addToHistory. case_bool_decide as Hin; [split; assumption|].
  cbn [history]. assert (Hnd' : NoDup (username :: history s)) by (constructor; assumption).
  destruct (Z.ltb_spec 5 (Z.of_nat (length (username :: history s)))) as [Hgt|Hle].
  - split; [|apply NoDup_pop; exact Hnd'].
    rewrite length_pop. cbn [length] in *. lia.
  - split; [cbn [length] in *; lia | exact Hnd'].
Qed.

Lemma addToHistory_in_sync (username : string) (s : Session) :
  persisted (localStorage s) = history s ->
  persisted (localStorage (addToHistory username s)) = history (addToHistory username s).
Proof.
  intros H. unfold addToHistory. case_bool_decide; [exact H|].
  cbn [history localStorage]. unfold persisted. rewrite lookup_insert_eq. reflexivity.
Qed.

Lemma record_all_bounded (searches : list string) (s : Session) :
  bounded (history s) -> persisted (localStorage s) = history s ->
  bounded (history (record_all searches s)) /\
  persisted (localStorage (record_all searches s)) = history (record_all searches s).
Proof.
  unfold record_all. revert s. induction searches as [|u us IH]; intros s Hb Hs; simpl.
  - split; assumption.
  - apply IH; [apply addToHistory_bounded | apply addToHistory_in_sync]; assumption.
Qed.

Lemma addSearchHistory_in_sync (ls : gmap string item) (s : Session) :
  addSearchHistory ls = Some s ->
  history s = persisted ls /\ localStorage s = ls.
Proof.
  unfold addSearchHistory, persisted.
  destruct (ls !! history_key) as [[names|value]|].
  - intros [= <-]. split; reflexivity.
  - destruct (JS.truthy value); [discriminate|]. intros [= <-]. split; reflexivity.
  - intros [= <-]. split; reflexivity.
Qed.

(** C7: from a history of at most 5 pairwise distinct usernames,
    addToHistory gives a history of at most 5 pairwise distinct usernames;
    hence, when the stored history is such, after addSearchHistory has read
    it and any sequence of usernames has been recorded, the history in
    memory and the one in storage both are. *)
Theorem history_stays_bounded :
  (forall (username : string) (s : Session),
     (length (history s) <= 5)%nat -> NoDup (history s) ->
     (length (history (addToHistory username s)) <= 5)%nat /\
     NoDup (history (addToHistory username s))) /\
  (forall (ls : gmap string item) (s : Session) (searches : list string),
     (length (persisted ls) <= 5)%nat -> NoDup (persisted ls) ->
     addSearchHistory ls = Some s ->
     let s' := record_all searches s in
     ((length (history s') <= 5)%nat /\ NoDup (history s')) /\
     ((length (persisted (localStorage s')) <= 5)%nat /\ NoDup (persisted (localStorage s')))).
Proof.
  split.
  - intros username s Hlen Hnd. apply addToHistory_bounded. split; assumption.
  - intros ls s searches Hlen Hnd Hs. cbv zeta.
    destruct (addSearchHistory_in_sync ls s Hs) as [Hh Hl].
    destruct (record_all_bounded searches s) as [Hb Hp].
    + rewrite Hh. split; assumption.
    + rewrite Hl. symmetry. exact Hh.
    + rewrite Hp. split; exact Hb.
Qed.

Lemma history_stays_bounded_witness :
  let s' := record_all ["octocat"; "mdo"; "paulirish"; "mdo"; "substack"] sample_session in
  ((length (history s') <= 5)%nat /\ NoDup (history s')) /\
  ((length (persisted (localStorage s')) <= 5)%nat /\ NoDup (persisted (localStorage s'))).
Proof.
  refine (proj2 history_stays_bounded (localStorage sample_session) sample_session
            ["octocat"; "mdo"; "paulirish"; "mdo"; "substack"] _ _ _).
  - vm_compute. lia.
  - apply (bool_decide_unpack _). vm_compute. exact I.
  - reflexivity.
Defined.

(** C10: recording a username the history already holds, at any position,
    changes neither the history in memory nor the storage: the session is
    the same, so the entry keeps its place. *)
Theorem addToHistory_present (username : string) (s : Session) :
  username ∈ history s ->
  addToHistory username s = s /\
  history (addToHistory username s) = history s /\
  localStorage (addToHistory username s) = localStorage s.
Proof.
  intros Hin. assert (E : addToHistory username s = s).
  { unfold addToHistory. rewrite bool_decide_eq_true_2 by exact Hin. reflexivity. }
  rewrite E. repeat split.
Qed.

Lemma addToHistory_present_witness :
  addToHistory "octocat" sample_session = sample_session /\
  history (addToHistory "octocat" sample_session) = ["torvalds"; "gaearon"; "octocat"] /\
  localStorage (addToHistory "octocat" sample_session) = localStorage sample_session.
Proof.
  apply (addToHistory_present "octocat" sample_session).
  apply (bool_decide_unpack _). vm_compute. exact I.
Defined.

(** ** Join date *)

Lemma all_from_spec (f : Z -> bool) (count : nat) (lo n : Z) :
  all_from f lo count = true -> lo <= n < lo + Z.of_nat count -> f n = true.
Proof.
  revert lo. induction count as [|k IH]; intros lo H Hn; [lia|].
  simpl in H. apply andb_prop in H as [H0 Hk].
  destruct (Z.eq_dec n lo) as [->|Hne]; [exact H0|].
  apply (IH (lo + 1)); [exact Hk | lia].
Qed.

Lemma civil_from_days_month (days : Z) :
  snd (fst (JS.civil_from_days days)) = month_of_doe ((days + 719468) mod 146097).
Proof.
  unfold JS.civil_from_days, month_of_doe. cbv zeta. simpl.
  replace (days + 719468 - (days + 719468) / 146097 * 146097)
    with ((days + 719468) mod 146097); [reflexivity|].
  rewrite Z.mod_eq by lia. lia.
Qed.

Lemma month_of_doe_range (doe : Z) :
  0 <= doe < 146097 -> 1 <= month_of_doe doe <= 12.
Proof.
  intros H. unfold month_of_doe. cbv zeta.
  set (yoe := (doe - doe / 1460 + doe / 36524 - doe / 146096) / 365).
  set (doy := doe - (365 * yoe + yoe / 4 - yoe / 100)).
  assert (Hdoy : 0 <= doy <= 365) by (subst doy yoe; Z.div_mod_to_equations; lia).
  destruct (Z.ltb_spec ((5 * doy + 2) / 153) 10); Z.div_mod_to_equations; lia.
Qed.

Lemma civil_from_days_month_range (days : Z) :
  1 <= snd (fst (JS.civil_from_days days)) <= 12.
Proof.
  rewrite civil_from_days_month. apply month_of_doe_range.
  apply Z.mod_pos_bound. lia.
Qed.

Lemma month_long_English (m : Z) :
  1 <= m <= 12 ->
  In (JS.month_long m)
     ["January"; "February"; "March"; "April"; "May"; "June"; "July";
      "August"; "September"; "October"; "November"; "December"].
Proof.
  intros H.
  assert (C : m = 1 \/ m = 2 \/ m = 3 \/ m = 4 \/ m = 5 \/ m = 6 \/ m = 7 \/
              m = 8 \/ m = 9 \/ m = 10 \/ m = 11 \/ m = 12) by lia.
  repeat (destruct C as [-> | C]; [simpl; tauto|]). subst m. simpl. tauto.
Qed.

Lemma decimal_four_digits (y : Z) :
  1000 <= y <= 9999 -> String.length (JS.decimal y) = 4%nat.
Proof.
  intros H.
  assert (E : all_from (fun n => Nat.eqb (String.length (JS.decimal n)) 4) 1000 (Z.to_nat 9000) = true)
    by (vm_compute; reflexivity).
  apply Nat.eqb_eq. apply (all_from_spec _ _ _ y E).
  rewrite Z2Nat.id by lia. lia.
Qed.

Lemma formatJoinDate_valid (h : Host) (dateString : string) (t : Z) :
  Date_parse h dateString = JS.Int t -> Z.abs t <= JS.maxTime ->
  formatJoinDate h dateString =
    "Joined " +:+ JS.toLocaleDateString_month_year (LocalTZA h) (JS.Int t).
Proof.
  intros Hp Ht. unfold formatJoinDate. rewrite Hp. unfold JS.TimeClip.
  destruct (Z.leb_spec (Z.abs t) JS.maxTime); [reflexivity | lia].
Qed.

(** C9, as amended: for a valid timestamp whose local date has a year from
    1000 to 9999, formatJoinDate returns "Joined <Month> <Year>" with the
    English month name and the four-digit year of that local date; and for a
    timestamp falling on 2011-03-19 (UTC), in a host whose local time is
    within a day of UTC, it returns "Joined March 2011". *)
Theorem formatJoinDate_month_year (h : Host) (dateString : string) (t : Z) :
  Date_parse h dateString = JS.Int t ->
  Z.abs t <= JS.maxTime ->
  (forall y m d : Z,
     JS.civil_from_days ((t + LocalTZA h t) / JS.msPerDay) = (y, m, d) ->
     1000 <= y <= 9999 ->
     formatJoinDate h dateString = "Joined " +:+ JS.month_long m +:+ " " +:+ JS.decimal y /\
     In (JS.month_long m)
        ["January"; "February"; "March"; "April"; "May"; "June"; "July";
         "August"; "September"; "October"; "November"; "December"] /\
     String.length (JS.decimal y) = 4%nat) /\
  (on_2011_03_19 t -> Z.abs (LocalTZA h t) <= JS.msPerDay ->
   formatJoinDate h dateString = "Joined March 2011").
Proof.
  intros Hp Ht. rewrite (formatJoinDate_valid h dateString t Hp Ht).
  unfold JS.toLocaleDateString_month_year. split.
  - intros y m d E Hy. rewrite E. split; [|split].
    + unfold JS.year_numeric. destruct (Z.ltb_spec 0 y); [reflexivity | lia].
    + apply month_long_English.
      pose proof (civil_from_days_month_range ((t + LocalTZA h t) / JS.msPerDay)) as Hm.
      rewrite E in Hm. exact Hm.
    + apply decimal_four_digits. exact Hy.
  - unfold on_2011_03_19. intros Hday Htz.
    change (JS.days_from_civil 2011 3 19) with 15052 in Hday.
    unfold JS.msPerDay in *.
    assert (C : (t + LocalTZA h t) / 86400000 = 15051 \/
                (t + LocalTZA h t) / 86400000 = 15052 \/
                (t + LocalTZA h t) / 86400000 = 15053)
      by (Z.div_mod_to_equations; lia).
    destruct C as [-> | [-> | ->]]; reflexivity.
Qed.

Lemma formatJoinDate_month_year_witness :
  let h := sample_host (Rejected "offline") (Rejected "offline") true in
  formatJoinDate h "2011-03-19T23:59:59Z" = "Joined March 2011".
Proof.
  refine (proj2 (formatJoinDate_month_year
                   (sample_host (Rejected "offline") (Rejected "offline") true)
                   "2011-03-19T23:59:59Z" 1300579199000 _ _) _ _).
  - reflexivity.
  - vm_compute. discriminate.
  - split; [vm_compute; discriminate | reflexivity].
  - vm_compute. discriminate.
Defined.

(** C9, as stated, fails: the year is printed with the digits it has, so a
    timestamp in the year 999 gives three digits. *)
Lemma formatJoinDate_year_999 :
  let h := sample_host (Rejected "offline") (Rejected "offline") true in
  Date_parse h "0999-03-19T12:00:00Z" = JS.Int (-30635064000000) /\
  JS.civil_from_days (-30635064000000 / JS.msPerDay) = (999, 3, 19) /\
  formatJoinDate h "0999-03-19T12:00:00Z" = "Joined March 999" /\
  formatJoinDate h "0999-03-19T12:00:00Z" <> "Joined March 0999".
Proof. vm_compute. repeat split. discriminate. Qed.

(** The month is that of the host's local date: half an hour into March
    (UTC) is still February five hours west. *)
Example formatJoinDate_local_month :
  let h := {| now := 1700000000000; LocalTZA := fun _ => -18000000;
              Date_parse := utc_parse;
              fetch_user := fun _ => Rejected "offline";
              fetch_repos := fun _ => Rejected "offline";
              profile_settles_first := true |} in
  formatJoinDate h "2011-03-01T00:30:00Z" = "Joined February 2011".
Proof. vm_compute. reflexivity. Qed.

(** * Further properties *)

(** ** The search pipeline as a whole *)

Lemma fetchUserProfile_settles (h : Host) (u : string) (st : App) :
  fetchUserProfile h u st =
    (set_rateLimit (rateLimit_after h u (rateLimit st)) (log_request (user_url u) st),
     profile_settlement h u).
Proof.
  unfold fetchUserProfile, profile_settlement, rateLimit_after, await, fetch, throw,
    effect, settle, profile_error_message.
  destruct (fetch_user h (user_url u)) as [response|message]; [|destruct st; reflexivity].
  destruct (ok response); simpl.
  - reflexivity.
  - destruct (status response =? 404); [destruct st; reflexivity|].
    destruct (status response =? 403); destruct st; reflexivity.
Qed.

(** The state in which the two promises of an admitted search settle. *)
Lemma handleSearch_settled (h : Host) (st : App) :
  admitted h st ->
  let u := JS.trim (usernameInput st) in
  let st2 :=
    log_request (repos_url u)
      (set_rateLimit (rateLimit_after h u (rateLimit st))
         (log_request (user_url u) (hideProfile (hideError (showLoading st))))) in
  handleSearch h st =
    match Promise_all (profile_settles_first h) (profile_settlement h u) (repos_settlement h u) with
    | Fulfilled (profile, repos) => hideLoading (displayProfile h profile repos st2)
    | Rejected message => handleError message (hideLoading st2)
    end.
Proof.
  intros Hadm. rewrite handleSearch_admitted by assumption. cbv zeta.
  rewrite fetchUserProfile_settles, fetchUserRepositories_settles. reflexivity.
Qed.

Lemma handleSearch_refused (h : Host) (st : App) :
  ~ admitted h st ->
  exists message, handleSearch h st = showError message st.
Proof.
  intros Hn. unfold handleSearch.
  destruct (JS.truthy (JS.trim (usernameInput st))) eqn:Ht; simpl; [|eauto].
  destruct (checkRateLimit (now h) (rateLimit st)) eqn:Hg; simpl; [|eauto].
  exfalso. apply Hn. split; [|assumption].
  intros E. rewrite E in Ht. discriminate.
Qed.

Lemma admitted_dec (h : Host) (st : App) : admitted h st \/ ~ admitted h st.
Proof.
  unfold admitted. destruct (string_dec (JS.trim (usernameInput st)) "") as [E|E];
    destruct (checkRateLimit (now h) (rateLimit st)); intuition congruence.
Qed.

(** X1: a search is admitted (username not blank, rate gate open) exactly
    when it issues requests; it then issues exactly two, for the trimmed
    username, the profile one first, whatever they settle to. *)
Theorem handleSearch_requests (h : Host) (st : App) :
  (admitted h st ->
   requests (handleSearch h st) =
     (requests st ++ [user_url (JS.trim (usernameInput st));
                      repos_url (JS.trim (usernameInput st))])%list) /\
  (~ admitted h st -> requests (handleSearch h st) = requests st).
Proof.
  split.
  - intros Hadm. rewrite (handleSearch_settled h st Hadm). cbv zeta.
    destruct (Promise_all _ _ _) as [[profile repos]|message]; simpl;
      rewrite <- app_assoc; reflexivity.
  - intros Hn. destruct (handleSearch_refused h st Hn) as [message ->]. reflexivity.
Qed.

Lemma handleSearch_requests_witness :
  let h := sample_host (answer 404 ∅ (Rejected "Unexpected end of JSON input"))
                       (Rejected "Failed to fetch") true in
  requests (handleSearch h (initial " octocat ")) =
    ([] ++ [user_url "octocat"; repos_url "octocat"])%list.
Proof.
  refine (proj1 (handleSearch_requests
            (sample_host (answer 404 ∅ (Rejected "Unexpected end of JSON input"))
                         (Rejected "Failed to fetch") true)
            (initial " octocat ")) _).
  split; [discriminate | reflexivity].
Defined.

(** X2: a refused search (blank username, or rate gate closed) only fills
    and shows the error box, with one of the two refusal messages: the
    profile card, its visibility, the stored repositories, the rate limit
    and the spinner are as before, so a profile displayed earlier stays on
    screen beside the error. *)
Theorem handleSearch_refused_frame (h : Host) (st : App) :
  ~ admitted h st ->
  (handleSearch h st = showError "Please enter a GitHub username" st \/
   handleSearch h st = showError "Rate limit exceeded. Please try again later." st) /\
  errorShown (handleSearch h st) = true /\
  profileShown (handleSearch h st) = profileShown st /\
  card (handleSearch h st) = card st /\
  currentRepos (handleSearch h st) = currentRepos st /\
  rateLimit (handleSearch h st) = rateLimit st /\
  loading (handleSearch h st) = loading st.
Proof.
  intros Hn.
  assert (E : handleSearch h st = showError "Please enter a GitHub username" st \/
              handleSearch h st = showError "Rate limit exceeded. Please try again later." st).
  { unfold handleSearch.
    destruct (JS.truthy (JS.trim (usernameInput st))) eqn:Ht; simpl; [|left; reflexivity].
    destruct (checkRateLimit (now h) (rateLimit st)) eqn:Hg; simpl; [|right; reflexivity].
    exfalso. apply Hn. split; [|assumption].
    intros E. rewrite E in Ht. discriminate. }
  split; [exact E|]. destruct E as [-> | ->]; repeat split.
Qed.

Lemma handleSearch_rateLimit_after (h : Host) (st : App) :
  admitted h st ->
  rateLimit (handleSearch h st) =
    rateLimit_after h (JS.trim (usernameInput st)) (rateLimit st).
Proof.
  intros Hadm. rewrite (handleSearch_settled h st Hadm). cbv zeta.
  destruct (Promise_all _ _ _) as [[profile repos]|message]; reflexivity.
Qed.

(** X4: in an admitted search the rate limit is read from the headers of
    the profile answer as soon as that answer has a success status, whether
    or not the search then succeeds; after an answer with another status or
    a transport error it is as before. *)
Theorem handleSearch_rateLimit (h : Host) (st : App) :
  admitted h st ->
  (forall response : Response Profile,
     fetch_user h (user_url (JS.trim (usernameInput st))) = Fulfilled response ->
     rateLimit (handleSearch h st) =
       if ok response then updateRateLimit (headers response) else rateLimit st) /\
  (forall message : string,
     fetch_user h (user_url (JS.trim (usernameInput st))) = Rejected message ->
     rateLimit (handleSearch h st) = rateLimit st).
Proof.
  intros Hadm.
  rewrite (handleSearch_rateLimit_after h st Hadm). unfold rateLimit_after. split.
  - intros response ->. reflexivity.
  - intros message ->. reflexivity.
Qed.

Lemma handleSearch_rateLimit_witness :
  let h := sample_host (answer 200 quota (Rejected "Unexpected end of JSON input"))
                       (Rejected "Failed to fetch") false in
  rateLimit (handleSearch h (initial "octocat")) =
    {| remaining := JS.Int 59; reset := JS.Int 1700003600 |}.
Proof.
  refine (proj1 (handleSearch_rateLimit
            (sample_host (answer 200 quota (Rejected "Unexpected end of JSON input"))
                         (Rejected "Failed to fetch") false)
            (initial "octocat") _)
            {| status := 200; headers := quota; json := Rejected "Unexpected end of JSON input" |}
            _).
  - split; [discriminate | reflexivity].
  - reflexivity.
Defined.





Lemma handleSearch_refused_frame_witness :
  let h := sample_host (answer 200 quota (Fulfilled octocat)) (answer 200 ∅ (Fulfilled [])) true in
  let st := type_username "  " (handleSearch h (initial "octocat")) in
  (handleSearch h st = showError "Please enter a GitHub username" st \/
   handleSearch h st = showError "Rate limit exceeded. Please try again later." st) /\
  errorShown (handleSearch h st) = true /\
  profileShown (handleSearch h st) = profileShown st /\
  card (handleSearch h st) = card st /\
  currentRepos (handleSearch h st) = currentRepos st /\
  rateLimit (handleSearch h st) = rateLimit st /\
  loading (handleSearch h st) = loading st.
Proof.
  apply handleSearch_refused_frame. intros [H _]. apply H. reflexivity.
Defined.

(** X8: the rate limit read in one search gates the next one.  After an
    admitted search whose profile answer has a success status and headers
    that parse to remaining r and reset s: if r <= 0, the next search, at a
    clock reading strictly before s * 1000 (within the range of a Date),
    issues no request and, for a username not blank, shows the rate limit
    message; if r > 0, the next search for a username not blank is
    admitted. *)
Theorem next_search_gated (h1 h2 : Host) (st : App) (response : Response Profile)
    (r s : Z) (input : string) :
  admitted h1 st ->
  fetch_user h1 (user_url (JS.trim (usernameInput st))) = Fulfilled response ->
  ok response = true ->
  updateRateLimit (headers response) = {| remaining := JS.Int r; reset := JS.Int s |} ->
  let st' := type_username input (handleSearch h1 st) in
  (r <= 0 -> now h2 < s * 1000 -> Z.abs (s * 1000) <= JS.maxTime ->
   requests (handleSearch h2 st') = requests st' /\
   (JS.trim input <> "" -> result (handleSearch h2 st') = Failure RateLimited)) /\
  (0 < r -> JS.trim input <> "" -> admitted h2 st').
Proof.
  intros Hadm Hf Hok Hrl st'.
  assert (E : rateLimit st' = {| remaining := JS.Int r; reset := JS.Int s |}).
  { subst st'. cbn [type_username rateLimit].
    rewrite (handleSearch_rateLimit_after h1 st Hadm). unfold rateLimit_after.
    rewrite Hf, Hok. exact Hrl. }
  split.
  - intros Hr Hnow Hrange.
    assert (Hg : checkRateLimit (now h2) (rateLimit st') = false).
    { rewrite E. apply checkRateLimit_false_iff. exists r, s. simpl. repeat split; lia. }
    assert (Hn : ~ admitted h2 st') by (intros [_ H]; congruence).
    split.
    + destruct (handleSearch_refused h2 st' Hn) as [message ->]. reflexivity.
    + intros Hu. unfold handleSearch. rewrite Hg.
      destruct (JS.trim (usernameInput st')) eqn:Et; [|reflexivity].
      exfalso. apply Hu. exact Et.
  - intros Hr Hu. split; [exact Hu|]. rewrite E. unfold checkRateLimit. simpl.
    destruct (Z.leb_spec r 0); [lia | reflexivity].
Qed.

Lemma next_search_gated_witness :
  let h := sample_host (answer 200 spent (Fulfilled octocat)) (answer 200 ∅ (Fulfilled [])) true in
  let st' := type_username "torvalds" (handleSearch h (initial "octocat")) in
  requests (handleSearch h st') = requests st' /\
  (JS.trim "torvalds" <> "" -> result (handleSearch h st') = Failure RateLimited).
Proof.
  refine (proj1 (next_search_gated
            (sample_host (answer 200 spent (Fulfilled octocat)) (answer 200 ∅ (Fulfilled [])) true)
            (sample_host (answer 200 spent (Fulfilled octocat)) (answer 200 ∅ (Fulfilled [])) true)
            (initial "octocat")
            {| status := 200; headers := spent; json := Fulfilled octocat |}
            0 1700003600 "torvalds" _ _ _ _) _ _ _).
  - split; [discriminate | reflexivity].
  - reflexivity.
  - reflexivity.
  - reflexivity.
  - lia.
  - reflexivity.
  - vm_compute. discriminate.
Defined.

(** ** White space around the username *)

Lemma type_username_handleSearch (h : Host) (a b : string) (st : App) :
  JS.trim a = JS.trim b ->
  handleSearch h (type_username a st) =
    type_username a (handleSearch h (type_username b st)).
Proof.
  intros Hab. unfold handleSearch. cbn [type_username usernameInput rateLimit]. rewrite Hab.
  destruct (JS.truthy (JS.trim b)); cbn [negb]; [|reflexivity].
  destruct (checkRateLimit (now h) (rateLimit st)); cbn [negb]; [|reflexivity].
  rewrite !fetchUserProfile_settles. rewrite !fetchUserRepositories_settles.
  destruct (Promise_all _ _ _) as [[profile repos]|message]; reflexivity.
Qed.

(** X9: white space around the username does not matter: two inputs with
    the same trimmed value lead to the same requests, the same rate limit
    and the same display; only the text left in the input field differs. *)
Theorem handleSearch_ignores_outer_space (h : Host) (a b : string) (st : App) :
  JS.trim a = JS.trim b ->
  let sa := handleSearch h (type_username a st) in
  let sb := handleSearch h (type_username b st) in
  requests sa = requests sb /\ rateLimit sa = rateLimit sb /\
  result sa = result sb /\ errorText sa = errorText sb /\
  card sa = card sb /\ currentRepos sa = currentRepos sb /\
  usernameInput sa = a /\ usernameInput sb = b.
Proof.
  intros Hab. cbv zeta.
  pose proof (type_username_handleSearch h b b st eq_refl) as Eb.
  rewrite (type_username_handleSearch h a b st Hab).
  set (X := handleSearch h (type_username b st)) in *.
  repeat split; try reflexivity. rewrite Eb. reflexivity.
Qed.

Lemma handleSearch_ignores_outer_space_witness :
  let h := sample_host (answer 200 quota (Fulfilled octocat)) (answer 200 ∅ (Fulfilled [])) true in
  let sa := handleSearch h (type_username "  octocat " (initial "")) in
  let sb := handleSearch h (type_username "octocat" (initial "")) in
  requests sa = requests sb /\ rateLimit sa = rateLimit sb /\
  result sa = result sb /\ errorText sa = errorText sb /\
  card sa = card sb /\ currentRepos sa = currentRepos sb /\
  usernameInput sa = "  octocat " /\ usernameInput sb = "octocat".
Proof.
  apply (handleSearch_ignores_outer_space
           (sample_host (answer 200 quota (Fulfilled octocat)) (answer 200 ∅ (Fulfilled [])) true)
           "  octocat " "octocat" (initial "")).
  reflexivity.
Defined.

(** ** Rate-limit headers written in decimal *)

Lemma parse_digits_uint (d : Decimal.uint) (acc : Z) :
  JS.parse_digits 10 (NilEmpty.string_of_uint d) (Some acc) = Some (uint_value d acc).
Proof.
  revert acc. induction d; intros acc; simpl; try reflexivity;
    rewrite IHd; try reflexivity; f_equal; f_equal; lia.
Qed.

Lemma uint_value_pos (d : Decimal.uint) (acc : positive) :
  uint_value d (Zpos acc) = Zpos (Pos.of_uint_acc d acc).
Proof.
  revert acc. induction d; intros acc; simpl; try reflexivity;
    rewrite <- IHd; f_equal; lia.
Qed.

Lemma uint_value_0 (d : Decimal.uint) : uint_value d 0 = Z.of_N (Pos.of_uint d).
Proof.
  induction d; cbn [uint_value Pos.of_uint]; try reflexivity; try exact IHd;
    exact (uint_value_pos d _).
Qed.

Lemma parse_digits_to_uint (p : positive) :
  JS.parse_digits 10 (NilEmpty.string_of_uint (Pos.to_uint p)) None = Some (Zpos p).
Proof.
  pose proof (DecimalPos.Unsigned.of_to p) as Hp.
  pose proof (DecimalPos.Unsigned.to_uint_nonnil p) as Hnil.
  assert (E : forall d, d <> Decimal.Nil ->
            JS.parse_digits 10 (NilEmpty.string_of_uint d) None = Some (uint_value d 0)).
  { intros d Hd. destruct d; try congruence; simpl; rewrite parse_digits_uint; reflexivity. }
  rewrite E by assumption. rewrite uint_value_0, Hp. reflexivity.
Qed.

Lemma strip_hex_prefix_digits (d : Decimal.uint) :
  JS.strip_hex_prefix (NilEmpty.string_of_uint d) = None.
Proof. destruct d; try reflexivity. destruct d; reflexivity. Qed.

Lemma parse_unsigned_to_uint (p : positive) :
  JS.parse_unsigned (NilEmpty.string_of_uint (Pos.to_uint p)) = Some (Zpos p).
Proof.
  unfold JS.parse_unsigned. rewrite strip_hex_prefix_digits. apply parse_digits_to_uint.
Qed.

Lemma string_of_to_uint (p : positive) :
  NilZero.string_of_uint (Pos.to_uint p) = NilEmpty.string_of_uint (Pos.to_uint p).
Proof.
  pose proof (DecimalPos.Unsigned.to_uint_nonnil p) as Hnil.
  destruct (Pos.to_uint p); [congruence | reflexivity..].
Qed.

(** [parseInt] reads back the decimal digits of an integer (as the exact
    integer: the Number is that integer up to 2^53). *)
Lemma parseInt_decimal (z : Z) : JS.parseInt (JS.decimal z) = JS.Int z.
Proof.
  unfold JS.decimal. destruct z as [|p|p]; [reflexivity| |].
  - cbn [Z.to_int NilZero.string_of_int]. rewrite string_of_to_uint.
    pose proof (parse_unsigned_to_uint p) as Hp.
    pose proof (DecimalPos.Unsigned.to_uint_nonnil p) as Hnil.
    unfold JS.parseInt.
    destruct (Pos.to_uint p); [congruence|..]; cbn [NilEmpty.string_of_uint] in *;
      simpl JS.trimStart; cbv iota beta; rewrite Hp; reflexivity.
  - cbn [Z.to_int NilZero.string_of_int]. rewrite string_of_to_uint.
    unfold JS.parseInt. simpl JS.trimStart. cbv iota beta.
    rewrite parse_unsigned_to_uint. reflexivity.
Qed.

Lemma truthy_decimal (z : Z) : JS.truthy (JS.decimal z) = true.
Proof.
  unfold JS.decimal. destruct z as [|p|p]; [reflexivity| |reflexivity].
  cbn [Z.to_int NilZero.string_of_int]. rewrite string_of_to_uint.
  pose proof (DecimalPos.Unsigned.to_uint_nonnil p) as Hnil.
  destruct (Pos.to_uint p); [congruence | reflexivity..].
Qed.

(** X10: rate-limit headers written as decimal integers that a Number holds
    exactly (magnitude at most 2^53) are stored as those integers: when
    X-RateLimit-Remaining is the decimal text of r and X-RateLimit-Reset
    that of s (headers are keyed by lower-cased name), updateRateLimit
    stores remaining = r and reset = s. *)
Theorem updateRateLimit_decimal_headers (hs : gmap string string) (r s : Z) :
  exact_Number r -> exact_Number s ->
  hs !! "x-ratelimit-remaining" = Some (JS.decimal r) ->
  hs !! "x-ratelimit-reset" = Some (JS.decimal s) ->
  updateRateLimit hs = {| remaining := JS.Int r; reset := JS.Int s |}.
Proof.
  intros _ _ Hr Hs. unfold updateRateLimit, Headers_get.
  change (JS.toLower "X-RateLimit-Remaining") with "x-ratelimit-remaining".
  change (JS.toLower "X-RateLimit-Reset") with "x-ratelimit-reset".
  rewrite Hr, Hs. unfold or_else. rewrite !truthy_decimal, !parseInt_decimal. reflexivity.
Qed.

Lemma updateRateLimit_decimal_headers_witness :
  updateRateLimit quota = {| remaining := JS.Int 59; reset := JS.Int 1700003600 |}.
Proof.
  apply (updateRateLimit_decimal_headers quota 59 1700003600);
    try reflexivity; vm_compute; discriminate.
Defined.

(** ** Search history, continued *)

Lemma addToHistory_new (username : string) (s : Session) :
  username ∉ history s ->
  history (addToHistory username s) =
    (if 5 <? Z.of_nat (S (length (history s))) then pop (username :: history s)
     else username :: history s) /\
  localStorage (addToHistory username s) =
    <[history_key := Json (history (addToHistory username s))]> (localStorage s).
Proof.
  intros Hn. unfold addToHistory. rewrite bool_decide_eq_false_2 by exact Hn.
  split; reflexivity.
Qed.

(** X11: a username not yet in a history of at most 5 entries becomes its
    first entry, the earlier entries follow in their order, and the oldest
    one is dropped when there were 5: the new history is the first 5 entries
    of the username followed by the old history, and it is what the storage
    then holds. *)
Theorem addToHistory_most_recent_first (username : string) (s : Session) :
  username ∉ history s -> (length (history s) <= 5)%nat ->
  history (addToHistory username s) = take 5 (username :: history s) /\
  persisted (localStorage (addToHistory username s)) = take 5 (username :: history s).
Proof.
  intros Hn Hlen. destruct (addToHistory_new username s Hn) as [Eh El].
  assert (E : history (addToHistory username s) = take 5 (username :: history s)).
  { rewrite Eh. destruct (Z.ltb_spec 5 (Z.of_nat (S (length (history s))))) as [Hgt|Hle].
    - unfold pop. rewrite removelast_firstn_len. cbn [length Nat.pred].
      replace (length (history s)) with 5%nat by lia. reflexivity.
    - rewrite take_ge; [reflexivity | cbn [length]; lia]. }
  split; [exact E|]. rewrite El. unfold persisted. rewrite lookup_insert_eq. exact E.
Qed.

Lemma addToHistory_most_recent_first_witness :
  history (addToHistory "mdo" sample_session) = take 5 ("mdo" :: history sample_session) /\
  persisted (localStorage (addToHistory "mdo" sample_session)) =
    take 5 ("mdo" :: history sample_session).
Proof.
  apply addToHistory_most_recent_first.
  - apply (bool_decide_unpack _). vm_compute. exact I.
  - vm_compute. lia.
Defined.

Lemma addToHistory_length_over (username : string) (s : Session) :
  (5 <= length (history s))%nat ->
  length (history (addToHistory username s)) = length (history s).
Proof.
  intros Hlen. unfold addToHistory. case_bool_decide as Hin; [reflexivity|].
  cbn [history]. destruct (Z.ltb_spec 5 (Z.of_nat (length (username :: history s)))) as [Hgt|Hle].
  - rewrite length_pop. reflexivity.
  - cbn [length] in Hle. lia.
Qed.

(** X12: addToHistory removes at most one entry per call, so a history that
    holds 5 entries or more (as a stored one may) keeps its length through
    any sequence of recorded usernames: one of more than 5 entries is never
    brought back to 5. *)
Theorem record_all_length_over (searches : list string) (s : Session) :
  (5 <= length (history s))%nat ->
  length (history (record_all searches s)) = length (history s).
Proof.
  unfold record_all. revert s. induction searches as [|u us IH]; intros s Hlen; [reflexivity|].
  cbn [foldl]. rewrite IH; rewrite addToHistory_length_over; auto.
Qed.

Lemma record_all_length_over_witness :
  let s := {| history := ["a"; "b"; "c"; "d"; "e"; "f"; "g"]; localStorage := ∅ |} in
  length (history (record_all ["x"; "y"; "a"; "z"] s)) = length (history s).
Proof.
  apply record_all_length_over. vm_compute. lia.
Defined.

(** X13: the history survives a reload: after addSearchHistory has read the
    storage and any sequence of usernames has been recorded, reading the
    resulting storage again gives the same session. *)
Theorem history_reload (ls : gmap string item) (s : Session) (searches : list string) :
  addSearchHistory ls = Some s ->
  addSearchHistory (localStorage (record_all searches s)) = Some (record_all searches s).
Proof.
  intros Hs.
  assert (G : forall us t, addSearchHistory (localStorage t) = Some t ->
                           addSearchHistory (localStorage (record_all us t)) = Some (record_all us t)).
  { unfold record_all. induction us as [|u us IH]; intros t Ht; [exact Ht|].
    cbn [foldl]. apply IH. unfold addToHistory. case_bool_decide; [exact Ht|].
    cbn [localStorage]. unfold addSearchHistory. rewrite lookup_insert_eq. reflexivity. }
  apply G. destruct (addSearchHistory_in_sync ls s Hs) as [Hh Hl].
  rewrite Hl, Hs. reflexivity.
Qed.

Lemma history_reload_witness :
  addSearchHistory (localStorage (record_all ["mdo"; "octocat"] sample_session)) =
    Some (record_all ["mdo"; "octocat"] sample_session).
Proof.
  apply (history_reload (localStorage sample_session)). reflexivity.
Defined.

(** X14: recording the same username twice in a row is recording it once. *)
Theorem addToHistory_twice (username : string) (s : Session) :
  addToHistory username (addToHistory username s) = addToHistory username s.
Proof.
  assert (Hin : username ∈ history (addToHistory username s)).
  { unfold addToHistory. case_bool_decide as Hin; [exact Hin|]. cbn [history].
    destruct (Z.ltb_spec 5 (Z.of_nat (length (username :: history s)))) as [Hgt|Hle].
    - unfold pop. destruct (history s) as [|x l]; [cbn [length] in Hgt; lia|].
      change (removelast (username :: x :: l)) with (username :: removelast (x :: l)).
      apply list_elem_of_here.
    - apply list_elem_of_here. }
  unfold addToHistory at 1. rewrite bool_decide_eq_true_2 by exact Hin. reflexivity.
Qed.

(** X15: addToHistory writes no other key of the storage than the history
    one: every other item (the theme preference among them) is as before. *)
Theorem addToHistory_other_keys (username : string) (s : Session) (k : string) :
  k <> history_key ->
  localStorage (addToHistory username s) !! k = localStorage s !! k.
Proof.
  intros Hk. unfold addToHistory. case_bool_decide; [reflexivity|].
  cbn [localStorage]. apply lookup_insert_ne. congruence.
Qed.

Lemma addToHistory_other_keys_witness :
  let s := {| history := []; localStorage := {[ "theme" := Text "light" ]} |} in
  localStorage (addToHistory "octocat" s) !! "theme" = localStorage s !! "theme".
Proof.
  apply addToHistory_other_keys. discriminate.
Defined.

(** ** Profile card *)



(** ** Repositories panel *)

Lemma append_assoc (a b c : string) : (a +:+ b) +:+ c = a +:+ (b +:+ c).
Proof.
  induction a as [|x a IH]; [reflexivity|].
  change (String x ((a +:+ b) +:+ c) = String x (a +:+ (b +:+ c))).
  rewrite IH. reflexivity.
Qed.

Lemma formatNumber_defined (n : Z) :
  0 <= n < 2 ^ 52 -> exists s, formatNumber n = Some s.
Proof.
  intros Hn. unfold formatNumber.
  destruct (Z.leb_spec 1000000 n).
  - destruct (toFixed1_quotient n 1000000 100000) as (t & E & _); [lia | lia | reflexivity..|].
    rewrite E. eauto.
  - destruct (Z.leb_spec 1000 n).
    + destruct (toFixed1_quotient n 1000 100) as (t & E & _); [lia | lia | reflexivity..|].
      rewrite E. eauto.
    + unfold JS.Number_toString. destruct (Z.ltb_spec (Z.abs n) (2 ^ 53)); [eauto | lia].
Qed.

(** X17: the card of a repository whose counts are integers from 0 to below
    2^52 is defined, and the repository's URL, name and description (when
    present and not empty) occur in it exactly as received: nothing in them
    is escaped before they become markup. *)
Theorem repo_card_verbatim (repo : Repository) :
  0 <= stargazers_count repo < 2 ^ 52 ->
  0 <= forks_count repo < 2 ^ 52 ->
  exists html,
    repo_card repo = Some html /\
    occurs (repo_html_url repo) html /\
    occurs (repo_name repo) html /\
    (forall text, description repo = Some text -> text <> "" -> occurs text html).
Proof.
  intros Hs Hf.
  destruct (formatNumber_defined _ Hs) as [stars Es].
  destruct (formatNumber_defined _ Hf) as [forks Ef].
  unfold repo_card. rewrite Es, Ef. cbn [mbind option_bind].
  eexists. split; [reflexivity|]. split; [|split].
  - eexists _, _. reflexivity.
  - exists (card_part0 +:+ repo_html_url repo +:+ card_part1). eexists.
    rewrite !append_assoc. reflexivity.
  - intros text Hd Ht. rewrite Hd.
    assert (E : or_else (Some text) "No description available" = text)
      by (destruct text; [congruence | reflexivity]).
    rewrite E.
    exists (card_part0 +:+ repo_html_url repo +:+ card_part1 +:+ repo_name repo
            +:+ card_part2 +:+ (if private repo then "private" else "public")
            +:+ card_part3 +:+ (if private repo then "Private" else "Public")
            +:+ card_part4).
    eexists. rewrite !append_assoc. reflexivity.
Qed.

Lemma repo_card_verbatim_witness :
  exists html,
    repo_card hello_world = Some html /\
    occurs (repo_html_url hello_world) html /\
    occurs (repo_name hello_world) html /\
    (forall text, description hello_world = Some text -> text <> "" -> occurs text html).
Proof.
  apply repo_card_verbatim; cbn [hello_world stargazers_count forks_count]; lia.
Defined.

Lemma toggle_hidden (repos : option (list Repository)) (p : ReposPanel) :
  hidden p ->
  toggleRepositories repos p =
    html ← displayRepositories repos;
    Some {| display := "block"; reposList := html; viewReposBtn := hide_label |}.
Proof.
  intros [E | E]; unfold toggleRepositories; rewrite E; reflexivity.
Qed.

Lemma toggle_shown (repos : option (list Repository)) (p : ReposPanel) :
  ~ hidden p ->
  toggleRepositories repos p =
    Some {| display := "none"; reposList := reposList p; viewReposBtn := view_label |}.
Proof.
  intros Hn. unfold toggleRepositories.
  destruct (String.eqb_spec (display p) "none") as [E|E]; [exfalso; apply Hn; left; exact E|].
  unfold hidden in Hn.
  destruct (display p) eqn:Ed; [exfalso; apply Hn; right; reflexivity | reflexivity].
Qed.

(** X18: opening the repositories panel when there is nothing to list shows
    the 'No repositories found' paragraph: before any successful search
    (currentRepos undefined), and after an admitted search whose profile
    request succeeded while the repositories request was answered with a
    non-success status. *)
Theorem toggleRepositories_nothing_to_list (h : Host) (st : App) (p : ReposPanel)
    (user : Response Profile) (profile : Profile) (listing : Response (list Repository)) :
  hidden p ->
  (currentRepos st = None ->
   toggleRepositories (currentRepos st) p =
     Some {| display := "block"; reposList := no_repos; viewReposBtn := hide_label |}) /\
  (admitted h st ->
   fetch_user h (user_url (JS.trim (usernameInput st))) = Fulfilled user ->
   ok user = true -> json user = Fulfilled profile ->
   fetch_repos h (repos_url (JS.trim (usernameInput st))) = Fulfilled listing ->
   ok listing = false ->
   toggleRepositories (currentRepos (handleSearch h st)) p =
     Some {| display := "block"; reposList := no_repos; viewReposBtn := hide_label |}).
Proof.
  intros Hp. split.
  - intros ->. rewrite toggle_hidden by exact Hp. reflexivity.
  - intros Hadm Hu Huok Hujson Hl Hlok.
    assert (E : currentRepos (handleSearch h st) = Some []).
    { rewrite (handleSearch_settled h st Hadm). cbv zeta.
      unfold profile_settlement, repos_settlement.
      rewrite Hu, Huok, Hujson, Hl, Hlok. reflexivity. }
    rewrite E, toggle_hidden by exact Hp. reflexivity.
Qed.

Lemma toggleRepositories_nothing_to_list_witness :
  let h := sample_host (answer 200 quota (Fulfilled octocat))
                       (answer 500 ∅ (Rejected "Unexpected end of JSON input")) true in
  let p := {| display := ""; reposList := ""; viewReposBtn := view_label |} in
  toggleRepositories (currentRepos (handleSearch h (initial "octocat"))) p =
    Some {| display := "block"; reposList := no_repos; viewReposBtn := hide_label |}.
Proof.
  refine (proj2 (toggleRepositories_nothing_to_list
            (sample_host (answer 200 quota (Fulfilled octocat))
                         (answer 500 ∅ (Rejected "Unexpected end of JSON input")) true)
            (initial "octocat")
            {| display := ""; reposList := ""; viewReposBtn := view_label |}
            {| status := 200; headers := quota; json := Fulfilled octocat |} octocat
            {| status := 500; headers := ∅; json := Rejected "Unexpected end of JSON input" |}
            _) _ _ _ _ _ _); try reflexivity.
  - right. reflexivity.
  - split; [discriminate | reflexivity].
Defined.

(** X19: the panel alternates.  Whatever its state, a toggle that completes
    leaves the section with display 'block' and the button reading 'Hide
    Repositories', or with display 'none' and the button reading 'View
    Repositories'; the next toggle then gives the other of the two, and
    hiding keeps the markup of the list. *)
Theorem toggleRepositories_alternates (repos : option (list Repository))
    (p p1 : ReposPanel) :
  toggleRepositories repos p = Some p1 ->
  (display p1 = "block" /\ viewReposBtn p1 = hide_label /\
   toggleRepositories repos p1 =
     Some {| display := "none"; reposList := reposList p1; viewReposBtn := view_label |}) \/
  (display p1 = "none" /\ viewReposBtn p1 = view_label /\ reposList p1 = reposList p /\
   forall p2, toggleRepositories repos p1 = Some p2 ->
              display p2 = "block" /\ viewReposBtn p2 = hide_label).
Proof.
  unfold toggleRepositories at 1.
  destruct (String.eqb (display p) "none" || negb (JS.truthy (display p))).
  - destruct (displayRepositories repos) as [html|]; [|discriminate].
    intros [= <-]. left. repeat split.
  - intros [= <-]. right. do 3 (split; [reflexivity|]).
    intros p2. unfold toggleRepositories. cbn [display String.eqb Ascii.eqb Bool.eqb orb].
    destruct (displayRepositories repos) as [html|]; [|discriminate].
    intros [= <-]. split; reflexivity.
Qed.

Lemma toggleRepositories_alternates_witness :
  let p1 := {| display := "block"; reposList := no_repos; viewReposBtn := hide_label |} in
  (display p1 = "block" /\ viewReposBtn p1 = hide_label /\
   toggleRepositories None p1 =
     Some {| display := "none"; reposList := reposList p1; viewReposBtn := view_label |}) \/
  (display p1 = "none" /\ viewReposBtn p1 = view_label /\ reposList p1 = "" /\
   forall p2, toggleRepositories None p1 = Some p2 ->
              display p2 = "block" /\ viewReposBtn p2 = hide_label).
Proof.
  apply (toggleRepositories_alternates None
           {| display := ""; reposList := ""; viewReposBtn := view_label |}).
  reflexivity.
Defined.

(** ** Theme toggle *)

(** X20: the theme survives a reload, and two clicks undo each other.  After
    a click the storage holds the theme the page shows, so that
    addThemeToggle on a page whose markup is dark restores that very state
    (class, button and storage); and a second click gives back the class the
    page had before the first. *)
Theorem theme_reload (t : Theme) :
  addThemeToggle false (theme_storage (theme_click t)) = theme_click t /\
  light_theme (theme_click (theme_click t)) = light_theme t /\
  theme_storage (theme_click t) !! "theme" =
    Some (Text (if light_theme (theme_click t) then "light" else "dark")).
Proof.
  assert (E : theme_storage (theme_click t) !! "theme" =
              Some (Text (if light_theme (theme_click t) then "light" else "dark"))).
  { unfold theme_click. cbn [theme_storage light_theme]. apply lookup_insert_eq. }
  split; [|split; [|exact E]].
  - unfold addThemeToggle, saved_light. rewrite E.
    unfold theme_click. cbn [light_theme theme_storage].
    destruct (light_theme t); reflexivity.
  - unfold theme_click. cbn [light_theme]. apply negb_involutive.
Qed.

(** X21: a click on the theme toggle writes the theme item only: every
    other item of the storage is as before, so the stored search history is
    the same and addSearchHistory reads the same history after it. *)
Theorem theme_click_other_keys (t : Theme) :
  (forall k, k <> "theme" -> theme_storage (theme_click t) !! k = theme_storage t !! k) /\
  persisted (theme_storage (theme_click t)) = persisted (theme_storage t) /\
  history <$> addSearchHistory (theme_storage (theme_click t)) =
    history <$> addSearchHistory (theme_storage t).
Proof.
  assert (K : forall k, k <> "theme" ->
                theme_storage (theme_click t) !! k = theme_storage t !! k).
  { intros k Hk. unfold theme_click. cbn [theme_storage]. apply lookup_insert_ne. congruence. }
  split; [exact K|].
  assert (Hh : theme_storage (theme_click t) !! history_key = theme_storage t !! history_key)
    by (apply K; discriminate).
  split.
  - unfold persisted. rewrite Hh. reflexivity.
  - unfold addSearchHistory. rewrite Hh.
    destruct (theme_storage t !! history_key) as [[names|value]|]; try reflexivity.
    destruct (JS.truthy value); reflexivity.
Qed.

(** ** Keyboard shortcuts *)

(** X22: Escape empties the input field and hides both the profile and the
    error box, leaving the rate limit, the card, the stored repositories
    and the requests as they are; a search triggered right after it is
    refused as blank, on every host; any other key leaves the instance
    unchanged. *)
Theorem on_keydown_escape (e : KeyEvent) (st : App) :
  (key e = "Escape" ->
   usernameInput (on_keydown e st) = "" /\
   errorShown (on_keydown e st) = false /\
   profileShown (on_keydown e st) = false /\
   rateLimit (on_keydown e st) = rateLimit st /\
   card (on_keydown e st) = card st /\
   currentRepos (on_keydown e st) = currentRepos st /\
   requests (on_keydown e st) = requests st /\
   forall h, handleSearch h (on_keydown e st) =
             showError "Please enter a GitHub username" (on_keydown e st)) /\
  (key e <> "Escape" -> on_keydown e st = st).
Proof.
  unfold on_keydown. split.
  - intros ->. cbn [String.eqb Ascii.eqb Bool.eqb]. repeat split.
  - intros Hk. destruct (String.eqb_spec (key e) "Escape"); [congruence | reflexivity].
Qed.

Lemma on_keydown_escape_witness :
  let h := sample_host (answer 200 quota (Fulfilled octocat)) (answer 200 ∅ (Fulfilled [])) true in
  let e := {| key := "Escape"; ctrlKey := false; metaKey := false |} in
  let st := handleSearch h (initial "octocat") in
  usernameInput (on_keydown e st) = "" /\
  errorShown (on_keydown e st) = false /\
  profileShown (on_keydown e st) = false /\
  rateLimit (on_keydown e st) = rateLimit st /\
  card (on_keydown e st) = card st /\
  currentRepos (on_keydown e st) = currentRepos st /\
  requests (on_keydown e st) = requests st /\
  forall h', handleSearch h' (on_keydown e st) =
             showError "Please enter a GitHub username" (on_keydown e st).
Proof.
  refine (proj1 (on_keydown_escape {| key := "Escape"; ctrlKey := false; metaKey := false |} _) _).
  reflexivity.
Defined.

(** ** Join date of a calendar date *)

Lemma yoe_roundtrip (yoe doy : Z) :
  0 <= yoe <= 399 -> 0 <= doy <= 365 ->
  (doy = 365 -> (yoe + 1) mod 4 = 0 /\ ((yoe + 1) mod 100 <> 0 \/ yoe = 399)) ->
  let doe := 365 * yoe + yoe / 4 - yoe / 100 + doy in
  (doe - doe / 1460 + doe / 36524 - doe / 146096) / 365 = yoe.
Proof.
  intros Hy Hd Hleap doe. subst doe.
  Z.div_mod_to_equations. lia.
Qed.

Lemma civil_of_parts (era yoe doy : Z) :
  0 <= yoe <= 399 -> 0 <= doy <= 365 ->
  (doy = 365 -> (yoe + 1) mod 4 = 0 /\ ((yoe + 1) mod 100 <> 0 \/ yoe = 399)) ->
  JS.civil_from_days (era * 146097 + (yoe * 365 + yoe / 4 - yoe / 100 + doy) - 719468) =
    let mp := (5 * doy + 2) / 153 in
    let m := if mp <? 10 then mp + 3 else mp - 9 in
    (yoe + era * 400 + (if m <=? 2 then 1 else 0), m, doy - (153 * mp + 2) / 5 + 1).
Proof.
  intros Hy Hd Hleap. unfold JS.civil_from_days. cbv zeta.
  set (doe := yoe * 365 + yoe / 4 - yoe / 100 + doy).
  assert (Hdoe : 0 <= doe < 146097).
  { subst doe. Z.div_mod_to_equations. lia. }
  replace (era * 146097 + doe - 719468 + 719468) with (doe + era * 146097) by lia.
  rewrite Z.div_add by lia. rewrite (Z.div_small doe) by lia. rewrite Z.add_0_l.
  replace (doe + era * 146097 - era * 146097) with doe by lia.
  assert (Ey : (doe - doe / 1460 + doe / 36524 - doe / 146096) / 365 = yoe).
  { pose proof (yoe_roundtrip yoe doy Hy Hd Hleap) as H. cbv zeta in H.
    subst doe. replace (yoe * 365) with (365 * yoe) by lia. exact H. }
  rewrite Ey.
  replace (doe - (365 * yoe + yoe / 4 - yoe / 100)) with doy by (subst doe; lia).
  reflexivity.
Qed.

Lemma civil_roundtrip (y m d : Z) :
  1 <= m <= 12 -> 1 <= d <= JS.days_in_month y m ->
  JS.civil_from_days (JS.days_from_civil y m d) = (y, m, d).
Proof.
  intros Hm Hd.
  assert (C : m = 1 \/ m = 2 \/ m = 3 \/ m = 4 \/ m = 5 \/ m = 6 \/ m = 7 \/
              m = 8 \/ m = 9 \/ m = 10 \/ m = 11 \/ m = 12) by lia.
  destruct C as [-> | [-> | [-> | [-> | [-> | [-> | [-> | [-> | [-> | [-> | [-> | ->]]]]]]]]]]];
    unfold JS.days_in_month in Hd; eval_consts Hd;
    unfold JS.days_from_civil in *;
    cbn [Z.leb Z.ltb Z.eqb Z.compare Pos.compare Pos.compare_cont] in *;
    cbv zeta in *.
  all: match goal with
       | |- JS.civil_from_days (?Y / 400 * 146097 + (?yoe * 365 + ?yoe / 4 - ?yoe / 100 + ?doy) - 719468) = _ =>
           let H1 := fresh in let H2 := fresh in let H3 := fresh in
           assert (H1 : 0 <= yoe <= 399) by (Z.div_mod_to_equations; lia);
           assert (H2 : 0 <= doy <= 365) by (Z.div_mod_to_equations; lia);
           assert (H3 : doy = 365 -> (yoe + 1) mod 4 = 0 /\ ((yoe + 1) mod 100 <> 0 \/ yoe = 399))
             by (Z.div_mod_to_equations; lia);
           rewrite (civil_of_parts (Y / 400) yoe doy H1 H2 H3); clear H3
       end.
  all: cbv zeta; f_equal; [f_equal|];
    repeat match goal with
      | |- context [?a <? ?b] => destruct (Z.ltb_spec a b)
      | |- context [?a <=? ?b] => destruct (Z.leb_spec a b)
      end; Z.div_mod_to_equations; lia.
Qed.

(** X23: in a host on UTC, formatJoinDate names the month and the year of
    the calendar date the timestamp denotes: for a timestamp that Date.parse
    reads as [ms] milliseconds into the day (y, m, d) of the proleptic
    Gregorian calendar, with y at least 1, it returns "Joined " followed by
    the English name of month m and the year y in decimal. *)
Theorem formatJoinDate_calendar_date (h : Host) (dateString : string) (y m d ms : Z) :
  let t := JS.days_from_civil y m d * JS.msPerDay + ms in
  Date_parse h dateString = JS.Int t ->
  Z.abs t <= JS.maxTime ->
  LocalTZA h t = 0 ->
  1 <= y -> 1 <= m <= 12 -> 1 <= d <= JS.days_in_month y m ->
  0 <= ms < JS.msPerDay ->
  formatJoinDate h dateString = "Joined " +:+ JS.month_long m +:+ " " +:+ JS.decimal y.
Proof.
  intros t Hp Ht Htz Hy Hm Hd Hms.
  rewrite (formatJoinDate_valid h dateString t Hp Ht).
  unfold JS.toLocaleDateString_month_year. rewrite Htz, Z.add_0_r.
  assert (E : t / JS.msPerDay = JS.days_from_civil y m d).
  { subst t. unfold JS.msPerDay in *. rewrite Z.add_comm, Z.div_add by lia.
    rewrite Z.div_small by lia. reflexivity. }
  rewrite E, civil_roundtrip by assumption.
  unfold JS.year_numeric. destruct (Z.ltb_spec 0 y); [reflexivity | lia].
Qed.

Lemma formatJoinDate_calendar_date_witness :
  let h := sample_host (Rejected "offline") (Rejected "offline") true in
  formatJoinDate h "2011-01-25T18:44:36Z" =
    "Joined " +:+ JS.month_long 1 +:+ " " +:+ JS.decimal 2011.
Proof.
  apply (formatJoinDate_calendar_date
           (sample_host (Rejected "offline") (Rejected "offline") true)
           "2011-01-25T18:44:36Z" 2011 1 25 67476000).
  - reflexivity.
  - vm_compute. discriminate.
  - reflexivity.
  - lia.
  - lia.
  - vm_compute. split; discriminate.
  - vm_compute. split; [discriminate | reflexivity].
Defined.

(** ** Rate gate over time *)

(** X24: the rate gate only opens with time: if checkRateLimit returns true
    at one clock reading it returns true at every later one (until the rate
    limit is next updated), and it returns true at every reading from
    reset * 1000 on, whatever remaining is. *)
Theorem checkRateLimit_opens (rl : RateLimit) (t t' : Z) :
  t <= t' ->
  (checkRateLimit t rl = true -> checkRateLimit t' rl = true) /\
  (forall s, reset rl = JS.Int s -> s * 1000 <= t -> checkRateLimit t rl = true).
Proof.
  intros Hle. split.
  - intros Ht. destruct (checkRateLimit t' rl) eqn:E'; [reflexivity|]. exfalso.
    apply checkRateLimit_false_iff in E'. destruct E' as (r & s & Er & Es & Hr & Hs & Hlt).
    assert (F : checkRateLimit t rl = false).
    { apply checkRateLimit_false_iff. exists r, s. repeat split; try assumption. lia. }
    congruence.
  - intros s Es Hs. destruct (checkRateLimit t rl) eqn:E; [reflexivity|]. exfalso.
    apply checkRateLimit_false_iff in E. destruct E as (r & s0 & _ & Es0 & _ & _ & Hlt).
    rewrite Es in Es0. injection Es0 as <-. lia.
Qed.

Lemma checkRateLimit_opens_witness :
  let rl := {| remaining := JS.Int 0; reset := JS.Int 1700003600 |} in
  (checkRateLimit 1700003600000 rl = true -> checkRateLimit 1700003600001 rl = true) /\
  (forall s, reset rl = JS.Int s -> s * 1000 <= 1700003600000 ->
             checkRateLimit 1700003600000 rl = true).
Proof.
  apply (checkRateLimit_opens {| remaining := JS.Int 0; reset := JS.Int 1700003600 |}
           1700003600000 1700003600001).
  lia.
Defined.

(** ** Typing effect *)

Lemma substring_0_0 (text : string) : substring 0 0 text = "".
Proof. destruct text; reflexivity. Qed.

Lemma substring_S (text : string) (k : nat) :
  (k < String.length text)%nat ->
  substring 0 k text +:+ charAt k text = substring 0 (S k) text.
Proof.
  revert k. induction text as [|c r IH]; intros k Hk; [simpl in Hk; lia|].
  destruct k as [|k].
  - cbn [substring]. rewrite !substring_0_0. reflexivity.
  - cbn [String.length] in Hk. unfold charAt. cbn [substring String.get].
    change (String c (substring 0 k r) +:+ match String.get k r with
                                            | Some c0 => String c0 ""
                                            | None => ""
                                            end)
      with (String c (substring 0 k r +:+ charAt k r)).
    rewrite IH by lia. reflexivity.
Qed.

Lemma substring_all (text : string) : substring 0 (String.length text) text = text.
Proof. induction text as [|c r IH]; [reflexivity|]. cbn [String.length substring]. rewrite IH. reflexivity. Qed.

Lemma typing_invariant (text : string) (k : nat) :
  let st := Nat.iter k (timer text) (addTypingEffect text) in
  let n := String.length text in
  (k < n -> textContent st = substring 0 (S k) text /\ typed st = S k /\ pending st = true)%nat /\
  (n <= k -> textContent st = text /\ typed st = n /\ pending st = false)%nat.
Proof.
  cbv zeta. induction k as [|k IH].
  - change (Nat.iter 0 (timer text) (addTypingEffect text)) with (addTypingEffect text).
    unfold addTypingEffect, typeWriter. cbn [typed textContent].
    destruct (Nat.ltb_spec 0 (String.length text)) as [Hlt|Hge]; split; intros H; try lia.
    + cbn [textContent typed pending]. repeat split.
      rewrite <- (substring_0_0 text). apply substring_S. exact Hlt.
    + cbn [textContent typed pending]. destruct text; [repeat split | simpl in Hge; lia].
  - rewrite !Nat.iter_succ. set (st := Nat.iter k (timer text) (addTypingEffect text)) in *.
    destruct IH as [IHlt IHge].
    destruct (Nat.lt_ge_cases k (String.length text)) as [Hk|Hk].
    + destruct (IHlt Hk) as (Ec & Et & Ep).
      unfold timer. rewrite Ep. unfold typeWriter. rewrite Et, Ec.
      destruct (Nat.ltb_spec (S k) (String.length text)) as [Hlt|Hge]; split; intros H; try lia;
        cbn [textContent typed pending].
      * repeat split. apply substring_S. exact Hlt.
      * assert (E : S k = String.length text) by lia.
        rewrite E. rewrite substring_all. repeat split.
    + destruct (IHge Hk) as (Ec & Et & Ep).
      unfold timer. rewrite Ep. split; intros H; [lia|]. repeat split; assumption.
Qed.

(** X25: the typing effect writes the text one character per timer and
    stops: after [k] timers the element holds the first k + 1 characters
    while k + 1 is below the length of the text, with one more timer
    pending; from as many timers as the text has characters on, it holds
    the whole text, exactly once, and no timer is pending. *)
Theorem addTypingEffect_types_text (text : string) (k : nat) :
  let st := Nat.iter k (timer text) (addTypingEffect text) in
  ((k < String.length text)%nat ->
   textContent st = substring 0 (S k) text /\ pending st = true) /\
  ((String.length text <= k)%nat ->
   textContent st = text /\ pending st = false).
Proof.
  cbv zeta. destruct (typing_invariant text k) as [Hlt Hge]. split.
  - intros H. destruct (Hlt H) as (? & _ & ?). split; assumption.
  - intros H. destruct (Hge H) as (? & _ & ?). split; assumption.
Qed.

Lemma addTypingEffect_types_text_witness :
  textContent (Nat.iter 7 (timer "octocat") (addTypingEffect "octocat")) = "octocat" /\
  pending (Nat.iter 7 (timer "octocat") (addTypingEffect "octocat")) = false.
Proof.
  refine (proj2 (addTypingEffect_types_text "octocat" 7) _). vm_compute. lia.
Defined.

(** ** The page between events *)

Lemma run_cons (h : Host) (ev : Event) (evs : list Event) (pg : Page) :
  run h (ev :: evs) pg = run h evs (step h pg ev).
Proof. reflexivity. Qed.

Lemma same_page_refl (st : App) : same_page st st.
Proof. repeat split. Qed.

Lemma same_page_set_rateLimit (rl : RateLimit) (st : App) :
  same_page st (set_rateLimit rl st).
Proof. repeat split. Qed.

(** Every handler of a network event is of that kind. *)
Lemma profile_settles_handled h x s st : handled h s st (profile_settles h x s st).
Proof.
  unfold profile_settles, handled. cbn [outcome reposPromise].
  destruct (outcome s) as [o|] eqn:Eo.
  - left. split; [reflexivity | apply same_page_refl].
  - destruct x as [profile|message].
    + destruct (reposPromise s) as [|response|[repos|m]];
        try (left; split; [reflexivity | apply same_page_refl]).
      right. split; [reflexivity|]. eexists. split; reflexivity.
    + right. split; [reflexivity|]. eexists. split; reflexivity.
Qed.

Lemma repos_settles_handled h x s st : handled h s st (repos_settles h x s st).
Proof.
  unfold repos_settles, handled. cbn [outcome profilePromise].
  destruct (outcome s) as [o|] eqn:Eo.
  - left. split; [reflexivity | apply same_page_refl].
  - destruct x as [repos|message].
    + destruct (profilePromise s) as [|response|[profile|m]];
        try (left; split; [reflexivity | apply same_page_refl]).
      right. split; [reflexivity|]. eexists. split; reflexivity.
    + right. split; [reflexivity|]. eexists. split; reflexivity.
Qed.

Lemma profile_answered_handled h a s st : handled h s st (profile_answered h a s st).
Proof.
  unfold profile_answered.
  destruct (profilePromise s); try (left; split; [reflexivity | apply same_page_refl]).
  destruct a as [response|message]; [|apply profile_settles_handled].
  destruct (ok response); cbn [negb].
  - left. split; [reflexivity | apply same_page_set_rateLimit].
  - destruct (status response =? 404); [apply profile_settles_handled|].
    destruct (status response =? 403); apply profile_settles_handled.
Qed.

Lemma profile_body_handled h s st : handled h s st (profile_body h s st).
Proof.
  unfold profile_body.
  destruct (profilePromise s); try (left; split; [reflexivity | apply same_page_refl]).
  apply profile_settles_handled.
Qed.

Lemma repos_answered_handled h a s st : handled h s st (repos_answered h a s st).
Proof.
  unfold repos_answered.
  destruct (reposPromise s); try (left; split; [reflexivity | apply same_page_refl]).
  destruct a as [response|message]; [|apply repos_settles_handled].
  destruct (ok response); cbn [negb].
  - left. split; [reflexivity | apply same_page_refl].
  - apply repos_settles_handled.
Qed.

Lemma repos_body_handled h s st : handled h s st (repos_body h s st).
Proof.
  unfold repos_body.
  destruct (reposPromise s); try (left; split; [reflexivity | apply same_page_refl]).
  apply repos_settles_handled.
Qed.

(** [handleSearch] ends with the spinner off and, from a page that shows
    neither the error box nor the profile, with exactly one of them. *)
Lemma handleSearch_resume_loading h o st : loading (handleSearch_resume h o st) = false.
Proof. destruct o as [[profile repos]|message]; reflexivity. Qed.

Lemma handleSearch_resume_one_display h o st :
  errorShown st = false -> profileShown st = false ->
  errorShown (handleSearch_resume h o st) = negb (profileShown (handleSearch_resume h o st)).
Proof.
  intros He Hp. destruct o as [[profile repos]|message]; simpl; [|rewrite Hp]; auto.
Qed.

(** Every event is an edit, a start or an event of the network. *)
Lemma deliver_stepped h i f pg :
  (forall s st, handled h s st (f s st)) -> stepped h pg (deliver i f pg).
Proof.
  intros Hf. unfold deliver. destruct (searches pg !! i) as [s|] eqn:Ei.
  - specialize (Hf s (app pg)). destruct (f s (app pg)) as [s' st'] eqn:Ef.
    eapply stepped_event; [exact Ei | reflexivity | exact Hf].
  - apply (stepped_edit h pg pg (app pg)); [destruct pg; reflexivity | reflexivity].
Qed.

Lemma handleSearch_start_stepped h t pg : stepped h pg (handleSearch_start t pg).
Proof.
  unfold handleSearch_start.
  destruct (JS.truthy (JS.trim (usernameInput (app pg)))); cbn [negb].
  - destruct (checkRateLimit t (rateLimit (app pg))); cbn [negb].
    + eapply stepped_start; reflexivity.
    + eapply stepped_edit; reflexivity.
  - eapply stepped_edit; reflexivity.
Qed.

Lemma step_stepped h pg ev : stepped h pg (step h pg ev).
Proof.
  destruct ev as [value|t|t|e|i a|i|i a|i]; cbn [step].
  - eapply stepped_edit; reflexivity.
  - apply handleSearch_start_stepped.
  - destruct (loading (app pg)) eqn:El; [|apply handleSearch_start_stepped].
    apply (stepped_edit h pg pg (app pg)); [destruct pg; reflexivity | reflexivity].
  - eapply stepped_edit; [reflexivity|].
    unfold on_keydown. destruct (String.eqb (key e) "Escape"); reflexivity.
  - apply deliver_stepped. intros. apply profile_answered_handled.
  - apply deliver_stepped. intros. apply profile_body_handled.
  - apply deliver_stepped. intros. apply repos_answered_handled.
  - apply deliver_stepped. intros. apply repos_body_handled.
Qed.

(** Replacing a search in the list: the count of settled ones, and whether
    all are settled. *)
Lemma filter_concluded_insert (l : list Search) (i : nat) (s s' : Search) :
  l !! i = Some s ->
  (length (List.filter concluded (<[i := s']> l)) + (if concluded s then 1 else 0) =
   length (List.filter concluded l) + (if concluded s' then 1 else 0))%nat.
Proof.
  revert i. induction l as [|x l IH]; intros [|i] Hi; try discriminate.
  - injection Hi as ->. cbn [List.filter].
    change (<[0%nat := s']> (s :: l)) with (s' :: l). cbn [List.filter].
    destruct (concluded s), (concluded s'); cbn [length]; lia.
  - change (<[S i := s']> (x :: l)) with (x :: <[i := s']> l). cbn [List.filter].
    specialize (IH i Hi). destruct (concluded x); cbn [length]; lia.
Qed.

Lemma forallb_concluded_insert (l : list Search) (i : nat) (s s' : Search) :
  l !! i = Some s -> concluded s' = concluded s ->
  forallb concluded (<[i := s']> l) = forallb concluded l.
Proof.
  revert i. induction l as [|x l IH]; intros [|i] Hi Hc; try discriminate.
  - injection Hi as ->. change (<[0%nat := s']> (s :: l)) with (s' :: l).
    cbn [forallb]. rewrite Hc. reflexivity.
  - change (<[S i := s']> (x :: l)) with (x :: <[i := s']> l). cbn [forallb].
    rewrite (IH i Hi Hc). reflexivity.
Qed.

Lemma concluded_outcome (s s' : Search) : outcome s' = outcome s -> concluded s' = concluded s.
Proof. unfold concluded. intros ->. reflexivity. Qed.

(** No event unsettles a search, and a spinner that is on survives an event
    that settles none. *)
Lemma settlements_step h pg ev :
  (settlements pg <= settlements (step h pg ev))%nat /\
  (loading (app pg) = true -> settlements (step h pg ev) = settlements pg ->
   loading (app (step h pg ev)) = true).
Proof.
  destruct (step_stepped h pg ev) as [st' -> Hl | st' -> Hl | i s s' st' Hi -> Hh];
    unfold settlements; cbn [app searches].
  - split; [lia | congruence].
  - rewrite List.filter_app. cbn [List.filter concluded outcome]. rewrite app_nil_r.
    split; [lia | auto].
  - pose proof (filter_concluded_insert (searches pg) i s s' Hi) as Hc.
    destruct Hh as [[Ho Hsame] | (Ho & o & Ho' & _)]; cbn [fst snd] in *.
    + rewrite (concluded_outcome _ _ Ho) in Hc. split; [lia|].
      intros Hl _. destruct Hsame as (_ & _ & _ & El & _). congruence.
    + assert (Hs : concluded s = false) by (unfold concluded; rewrite Ho; reflexivity).
      assert (Hs' : concluded s' = true) by (unfold concluded; rewrite Ho'; reflexivity).
      rewrite Hs, Hs' in Hc. split; [lia|]. intros _ E. lia.
Qed.

Lemma settlements_run h evs pg : (settlements pg <= settlements (run h evs pg))%nat.
Proof.
  revert pg. induction evs as [|ev evs IH]; intros pg; [reflexivity|].
  rewrite run_cons. etransitivity; [apply (settlements_step h pg ev) | apply IH].
Qed.

Lemma spinner_stays_on h evs pg :
  loading (app pg) = true -> settlements (run h evs pg) = settlements pg ->
  loading (app (run h evs pg)) = true.
Proof.
  revert pg. induction evs as [|ev evs IH]; intros pg Hl Hs; [exact Hl|].
  rewrite run_cons in *.
  pose proof (settlements_step h pg ev) as [Hle Hkeep].
  pose proof (settlements_run h evs (step h pg ev)) as Hle'.
  apply IH; [apply Hkeep; [exact Hl | lia] | lia].
Qed.

(** No search in flight, spinner off: an invariant of the page. *)
Lemma idle_step h pg ev :
  (idle pg = true -> loading (app pg) = false) ->
  idle (step h pg ev) = true -> loading (app (step h pg ev)) = false.
Proof.
  intros Inv.
  destruct (step_stepped h pg ev) as [st' -> Hl | st' -> Hl | i s s' st' Hi -> Hh];
    unfold idle in *; cbn [app searches].
  - intros Hi. rewrite Hl. auto.
  - rewrite forallb_app. cbn [forallb concluded outcome]. rewrite andb_false_r. discriminate.
  - destruct Hh as [[Ho Hsame] | (Ho & o & Ho' & E)]; cbn [fst snd] in *.
    + rewrite (forallb_concluded_insert _ i s s' Hi (concluded_outcome _ _ Ho)).
      intros Hidle. destruct Hsame as (_ & _ & _ & El & _). rewrite El. auto.
    + intros _. rewrite E. apply handleSearch_resume_loading.
Qed.

Lemma idle_run h evs pg :
  (idle pg = true -> loading (app pg) = false) ->
  idle (run h evs pg) = true -> loading (app (run h evs pg)) = false.
Proof.
  revert pg. induction evs as [|ev evs IH]; intros pg Inv; [exact Inv|].
  rewrite run_cons. apply IH. apply idle_step. exact Inv.
Qed.

(** [alone] is kept by every event that does not call [handleSearch] (and,
    read strictly, is not Escape). *)
Lemma alone_edit strict n pg st' :
  alone strict n pg ->
  loading st' = loading (app pg) ->
  (errorShown st' = errorShown (app pg) /\ profileShown st' = profileShown (app pg)) \/
  (strict = false /\ errorShown st' = false /\ profileShown st' = false) ->
  alone strict n {| app := st'; searches := searches pg |}.
Proof.
  intros (Hlen & Hold & s & Hs & Hfly & Hboth & Hone) Hl Hd.
  split; [exact Hlen|]. split; [exact Hold|]. exists s. split; [exact Hs|].
  cbn [app]. destruct Hd as [[He Hp] | (Hb & He & Hp)].
  - rewrite Hl, He, Hp. auto.
  - rewrite Hl, He, Hp. split; [|split; [reflexivity|]].
    + intros Ho. destruct (Hfly Ho) as (L & _ & _). auto.
    + intros Hstrict. congruence.
Qed.

Lemma alone_step h strict n pg ev :
  calls_handleSearch ev = false ->
  (strict = true -> is_escape ev = false) ->
  alone strict n pg -> alone strict n (step h pg ev).
Proof.
  intros Hpassive Hesc Hinv.
  assert (Hnet : forall i f, (forall s st, handled h s st (f s st)) ->
                 alone strict n (deliver i f pg)).
  { intros i f Hf. unfold deliver.
    destruct (searches pg !! i) as [si|] eqn:Ei; [|exact Hinv].
    specialize (Hf si (app pg)). destruct (f si (app pg)) as [s' st'].
    destruct Hinv as (Hlen & Hold & s & Hs & Hfly & Hboth & Hone).
    pose proof (lookup_lt_Some _ _ _ Ei) as Hlt.
    unfold alone. cbn [app searches]. rewrite length_insert. split; [exact Hlen|].
    destruct (decide (i = n)) as [->|Hne].
    - assert (si = s) as -> by congruence.
      split.
      { intros j sj Hj Hjn. rewrite list_lookup_insert_ne in Hj by congruence. eauto. }
      exists s'. split; [apply list_lookup_insert_eq; exact Hlt|].
      destruct Hf as [[Ho Hsame] | (Ho & o & Ho' & E)]; cbn [fst snd] in *.
      + destruct Hsame as (_ & _ & He & Hl & Hp & _). rewrite Ho, He, Hl, Hp. auto.
      + destruct (Hfly Ho) as (_ & He & Hp).
        pose proof (handleSearch_resume_one_display h o (app pg) He Hp) as H1.
        pose proof (handleSearch_resume_loading h o (app pg)) as H2.
        rewrite E, Ho'. split; [discriminate|]. split; [|auto].
        rewrite H1. apply andb_negb_l.
    - split.
      { intros j sj Hj Hjn. destruct (decide (j = i)) as [->|Hji].
        - rewrite list_lookup_insert_eq in Hj by exact Hlt. injection Hj as <-.
          specialize (Hold i si Ei Hne).
          destruct Hf as [[Ho _] | (Ho & _)]; cbn [fst] in *.
          + rewrite (concluded_outcome _ _ Ho). exact Hold.
          + unfold concluded in Hold. rewrite Ho in Hold. discriminate.
        - rewrite list_lookup_insert_ne in Hj by congruence. eauto. }
      exists s. split; [rewrite list_lookup_insert_ne by exact Hne; exact Hs|].
      specialize (Hold i si Ei Hne).
      destruct Hf as [[Ho Hsame] | (Ho & _)]; cbn [fst snd] in *.
      + destruct Hsame as (_ & _ & He & Hl & Hp & _). rewrite He, Hl, Hp. auto.
      + unfold concluded in Hold. rewrite Ho in Hold. discriminate. }
  destruct ev as [value|t|t|e|i a|i|i a|i]; cbn [step]; try discriminate.
  - apply alone_edit; [exact Hinv | reflexivity | left; split; reflexivity].
  - unfold on_keydown. cbn [is_escape] in Hesc.
    destruct (String.eqb (key e) "Escape") eqn:Ek.
    + apply alone_edit; [exact Hinv | reflexivity |].
      right. split; [|split; reflexivity].
      destruct strict; [|reflexivity]. specialize (Hesc eq_refl). discriminate.
    + apply alone_edit; [exact Hinv | reflexivity | left; split; reflexivity].
  - apply Hnet. intros. apply profile_answered_handled.
  - apply Hnet. intros. apply profile_body_handled.
  - apply Hnet. intros. apply repos_answered_handled.
  - apply Hnet. intros. apply repos_body_handled.
Qed.

Lemma alone_run h strict n evs pg :
  forallb (fun ev => negb (calls_handleSearch ev)) evs = true ->
  (strict = true -> forallb (fun ev => negb (is_escape ev)) evs = true) ->
  alone strict n pg -> alone strict n (run h evs pg).
Proof.
  revert pg. induction evs as [|ev evs IH]; intros pg Hp He Hinv; [exact Hinv|].
  rewrite run_cons. cbn [forallb] in Hp, He.
  apply andb_true_iff in Hp as [Hp1 Hp2].
  apply IH; [exact Hp2 | |].
  - intros Hs. specialize (He Hs). apply andb_true_iff in He as [_ He]. exact He.
  - apply alone_step; [apply negb_true_iff; exact Hp1 | | exact Hinv].
    intros Hs. specialize (He Hs). apply andb_true_iff in He as [He _].
    apply negb_true_iff. exact He.
Qed.

Lemma handleSearch_start_admitted t pg :
  JS.trim (usernameInput (app pg)) <> "" ->
  checkRateLimit t (rateLimit (app pg)) = true ->
  handleSearch_start t pg =
    {| app := log_request (repos_url (JS.trim (usernameInput (app pg))))
                (log_request (user_url (JS.trim (usernameInput (app pg))))
                   (hideProfile (hideError (showLoading (app pg)))));
       searches := searches pg ++
         [{| profilePromise := AwaitFetch; reposPromise := AwaitFetch; outcome := None |}] |}.
Proof.
  intros Hu Hg. unfold handleSearch_start. rewrite Hg.
  destruct (JS.trim (usernameInput (app pg))); [congruence | reflexivity].
Qed.

Lemma alone_start strict t pg :
  idle pg = true ->
  JS.trim (usernameInput (app pg)) <> "" ->
  checkRateLimit t (rateLimit (app pg)) = true ->
  alone strict (length (searches pg)) (handleSearch_start t pg).
Proof.
  intros Hidle Hu Hg. rewrite handleSearch_start_admitted by assumption.
  unfold alone. cbn [app searches]. split; [rewrite length_app; cbn [length]; lia|].
  split.
  - intros j sj Hj Hjn. apply lookup_snoc_Some in Hj as [[Hlt Hj] | [E _]]; [|congruence].
    unfold idle in Hidle. rewrite forallb_forall in Hidle. apply Hidle.
    apply list_elem_of_In. eapply list_elem_of_lookup_2. exact Hj.
  - eexists. split; [apply list_lookup_middle; reflexivity|].
    cbn. split; [auto|]. split; [reflexivity|]. intros _ Ho. congruence.
Qed.

(** Events that are not for search [n] leave it as it is. *)
Lemma deliver_elsewhere i f pg n : i <> n -> searches (deliver i f pg) !! n = searches pg !! n.
Proof.
  intros Hne. unfold deliver. destruct (searches pg !! i) as [s|]; [|reflexivity].
  destruct (f s (app pg)) as [s' st']. cbn [searches].
  apply list_lookup_insert_ne. exact Hne.
Qed.

Lemma unanswered_step h pg ev n :
  calls_handleSearch ev = false -> addresses n ev = false ->
  searches (step h pg ev) !! n = searches pg !! n.
Proof.
  intros Hp Ha.
  destruct ev as [value|t|t|e|i a|i|i a|i]; cbn [step calls_handleSearch addresses] in *;
    try discriminate; try reflexivity;
    apply deliver_elsewhere; apply Nat.eqb_neq; exact Ha.
Qed.

Lemma unanswered_run h evs pg n :
  forallb (fun ev => negb (calls_handleSearch ev) && negb (addresses n ev)) evs = true ->
  searches (run h evs pg) !! n = searches pg !! n.
Proof.
  revert pg. induction evs as [|ev evs IH]; intros pg H; [reflexivity|].
  rewrite run_cons. cbn [forallb] in H. apply andb_true_iff in H as [H1 H2].
  apply andb_true_iff in H1 as [Hp Ha]. apply negb_true_iff in Hp, Ha.
  rewrite (IH _ H2). apply unanswered_step; assumption.
Qed.

Lemma forallb_weaken {A} (f g : A -> bool) (l : list A) :
  (forall x, f x = true -> g x = true) -> forallb f l = true -> forallb g l = true.
Proof.
  intros Hfg. induction l as [|x l IH]; [reflexivity|]. cbn [forallb].
  intros H. apply andb_true_iff in H as [H1 H2]. rewrite (Hfg x H1), (IH H2). reflexivity.
Qed.

(** X3: the spinner is tied to the searches in flight, and nothing but a
    settlement turns it off: no request has a timeout.  In every state the
    loaded page can reach, the spinner is off once no search is in flight;
    a spinner that is on stays on through every run of events in which no
    search settles; and after the start of an admitted search, on a page
    with no other in flight, it is on for as long as the two requests are
    not answered and handleSearch is not called again. *)
Theorem spinner_until_settlement (h : Host) :
  (forall input evs,
     idle (run h evs (loaded input)) = true ->
     loading (app (run h evs (loaded input))) = false) /\
  (forall pg evs,
     loading (app pg) = true -> settlements (run h evs pg) = settlements pg ->
     loading (app (run h evs pg)) = true) /\
  (forall pg t evs,
     idle pg = true ->
     JS.trim (usernameInput (app pg)) <> "" ->
     checkRateLimit t (rateLimit (app pg)) = true ->
     forallb (fun ev => negb (calls_handleSearch ev) &&
                        negb (addresses (length (searches pg)) ev)) evs = true ->
     loading (app (run h (Enter t :: evs) pg)) = true).
Proof.
  split; [|split].
  - intros input evs. apply idle_run. reflexivity.
  - intros pg evs. apply spinner_stays_on.
  - intros pg t evs Hidle Hu Hg Hevs. rewrite run_cons. cbn [step].
    assert (Hp : forallb (fun ev => negb (calls_handleSearch ev)) evs = true).
    { revert Hevs. apply forallb_weaken. intros ev H.
      apply andb_true_iff in H as [H _]. exact H. }
    destruct (alone_run h false _ evs _ Hp (fun E => ltac:(discriminate))
                (alone_start false t pg Hidle Hu Hg))
      as (_ & _ & s & Hs & Hfly & _).
    rewrite (unanswered_run h evs _ _ Hevs) in Hs.
    rewrite (handleSearch_start_admitted t pg Hu Hg) in Hs. cbn [searches] in Hs.
    rewrite list_lookup_middle in Hs by reflexivity. injection Hs as <-.
    apply Hfly. reflexivity.
Qed.

Lemma spinner_until_settlement_witness :
  let h := sample_host (Rejected "Failed to fetch") (Rejected "Failed to fetch") true in
  loading (app (run h [Enter 1700000000000; Typed "torvalds"; Keydown escape]
                  (loaded "octocat"))) = true.
Proof.
  refine (proj2 (proj2 (spinner_until_settlement
            (sample_host (Rejected "Failed to fetch") (Rejected "Failed to fetch") true)))
            (loaded "octocat") 1700000000000
            [Typed "torvalds"; Keydown escape] _ _ _ _).
  - reflexivity.
  - discriminate.
  - reflexivity.
  - reflexivity.
Defined.

(** X7: a search during which [handleSearch] is not called again, started
    when no other is in flight, never has the error box and the profile
    section on display together: both are hidden while it is in flight,
    and once it has settled exactly one is shown, until Escape hides it. *)
Theorem one_display_alone (h : Host) (pg : Page) (t : Z) (evs : list Event) :
  idle pg = true ->
  JS.trim (usernameInput (app pg)) <> "" ->
  checkRateLimit t (rateLimit (app pg)) = true ->
  forallb (fun ev => negb (calls_handleSearch ev)) evs = true ->
  let pg' := run h (Enter t :: evs) pg in
  exists s, searches pg' !! length (searches pg) = Some s /\
    (outcome s = None ->
     loading (app pg') = true /\ errorShown (app pg') = false /\
     profileShown (app pg') = false) /\
    errorShown (app pg') && profileShown (app pg') = false /\
    (forallb (fun ev => negb (is_escape ev)) evs = true -> outcome s <> None ->
     errorShown (app pg') = negb (profileShown (app pg')) /\ loading (app pg') = false).
Proof.
  intros Hidle Hu Hg Hp pg'. subst pg'. rewrite run_cons. cbn [step].
  destruct (forallb (fun ev => negb (is_escape ev)) evs) eqn:Hesc.
  - destruct (alone_run h true _ evs _ Hp (fun _ => Hesc) (alone_start true t pg Hidle Hu Hg))
      as (_ & _ & s & Hs & H1 & H2 & H3).
    exists s. auto.
  - destruct (alone_run h false _ evs _ Hp (fun E => ltac:(discriminate))
                (alone_start false t pg Hidle Hu Hg))
      as (_ & _ & s & Hs & H1 & H2 & _).
    exists s. repeat split; try apply H1; auto; discriminate.
Qed.

Lemma one_display_alone_witness :
  let h := sample_host (answer 200 quota (Fulfilled octocat)) (Rejected "Failed to fetch") false in
  let evs := [ReposAnswer 0%nat (Rejected "Failed to fetch");
              ProfileAnswer 0%nat (answer 200 quota (Fulfilled octocat));
              Typed "torvalds"; ProfileBody 0%nat] in
  let pg' := run h (Enter 1700000000000 :: evs) (loaded "octocat") in
  exists s, searches pg' !! length (searches (loaded "octocat")) = Some s /\
    (outcome s = None ->
     loading (app pg') = true /\ errorShown (app pg') = false /\
     profileShown (app pg') = false) /\
    errorShown (app pg') && profileShown (app pg') = false /\
    (forallb (fun ev => negb (is_escape ev)) evs = true -> outcome s <> None ->
     errorShown (app pg') = negb (profileShown (app pg')) /\ loading (app pg') = false).
Proof.
  apply (one_display_alone
           (sample_host (answer 200 quota (Fulfilled octocat)) (Rejected "Failed to fetch") false)
           (loaded "octocat") 1700000000000
           [ReposAnswer 0%nat (Rejected "Failed to fetch");
            ProfileAnswer 0%nat (answer 200 quota (Fulfilled octocat));
            Typed "torvalds"; ProfileBody 0%nat]).
  - reflexivity.
  - discriminate.
  - reflexivity.
  - reflexivity.
Defined.

(** Delivery to the search at a known place of the list. *)
Lemma deliver_at (i : nat) (f : Search -> App -> Search * App) (st st' : App)
    (l r : list Search) (s s' : Search) :
  i = length l -> f s st = (s', st') ->
  deliver i f {| app := st; searches := l ++ s :: r |} =
    {| app := st'; searches := l ++ s' :: r |}.
Proof.
  intros -> Hf. unfold deliver. cbn [app searches].
  rewrite list_lookup_middle by reflexivity. rewrite Hf. f_equal.
  replace (length l) with (length l + 0)%nat by lia.
  rewrite insert_app_r. reflexivity.
Qed.

Lemma deliver_after (i : nat) (f : Search -> App -> Search * App) (st st' : App)
    (l r : list Search) (x s s' : Search) :
  i = S (length l) -> f s st = (s', st') ->
  deliver i f {| app := st; searches := l ++ x :: s :: r |} =
    {| app := st'; searches := l ++ x :: s' :: r |}.
Proof.
  intros -> Hf. rewrite (cons_middle x l (s :: r)), app_assoc.
  rewrite (deliver_at _ f st st' _ r s s') by (rewrite ?length_app; cbn [length]; lia || exact Hf).
  rewrite <- app_assoc. reflexivity.
Qed.

Lemma profile_answered_failure h a message s st :
  profile_failure a = Some message ->
  profilePromise s = AwaitFetch -> outcome s = None ->
  profile_answered h a s st =
    ({| profilePromise := Done (Rejected message); reposPromise := reposPromise s;
        outcome := Some (Rejected message) |},
     handleError message (hideLoading st)).
Proof.
  intros Hf Hp Ho. unfold profile_answered, profile_failure, profile_error_message in *.
  rewrite Hp. destruct a as [response|m].
  - destruct (ok response); [discriminate|]. cbn [negb].
    destruct (status response =? 404); [|destruct (status response =? 403)];
      injection Hf as <-; unfold profile_settles; cbn [outcome]; rewrite Ho; reflexivity.
  - injection Hf as <-. unfold profile_settles; cbn [outcome]; rewrite Ho; reflexivity.
Qed.

(** X26: searches are not serialised.  When a second search is started
    while the first is in flight (Enter starts one whatever the state of
    the button) and fails on its profile request before the answers of the
    first arrive, those answers are displayed all the same: the page ends
    with the error of the second search and the profile of the first both
    on display, under the username of the second, the spinner off although
    the repositories request of the second is still pending. *)
Theorem overlapping_searches (h : Host) (pg : Page) (t1 t2 : Z) (b : string)
    (failure : settled (Response Profile)) (message : string)
    (user : Response Profile) (profile : Profile)
    (listing : Response (list Repository)) (repos : list Repository) :
  JS.trim (usernameInput (app pg)) <> "" ->
  checkRateLimit t1 (rateLimit (app pg)) = true ->
  JS.trim b <> "" ->
  checkRateLimit t2 (rateLimit (app pg)) = true ->
  profile_failure failure = Some message ->
  ok user = true -> json user = Fulfilled profile ->
  ok listing = true -> json listing = Fulfilled repos ->
  let first := length (searches pg) in
  let second := S first in
  let pg' := run h [Enter t1; Typed b; Enter t2;
                    ProfileAnswer second failure;
                    ProfileAnswer first (Fulfilled user);
                    ReposAnswer first (Fulfilled listing);
                    ProfileBody first; ReposBody first] pg in
  errorShown (app pg') = true /\ errorText (app pg') = message /\
  profileShown (app pg') = true /\ card (app pg') = Some (render h profile) /\
  currentRepos (app pg') = Some repos /\ usernameInput (app pg') = b /\
  loading (app pg') = false /\
  (reposPromise <$> searches pg' !! second) = Some AwaitFetch.
Proof.
  intros Ha Hg1 Hb Hg2 Hfail Huok Hujson Hlok Hljson first second pg'.
  subst pg' first second. unfold run. cbn [foldl step].
  rewrite (handleSearch_start_admitted t1 pg Ha Hg1).
  cbn [app searches].
  rewrite handleSearch_start_admitted by (cbn; assumption).
  cbn [app searches type_username usernameInput].
  rewrite <- app_assoc. cbn [List.app].
  erewrite deliver_after;
    [| reflexivity
     | apply (profile_answered_failure h failure message); [assumption | reflexivity..]].
  erewrite deliver_at;
    [| reflexivity | unfold profile_answered; cbn [profilePromise]; rewrite Huok; reflexivity].
  erewrite deliver_at;
    [| reflexivity | unfold repos_answered; cbn [reposPromise]; rewrite Hlok; reflexivity].
  erewrite deliver_at;
    [| reflexivity
     | unfold profile_body, profile_settles; cbn [profilePromise reposPromise outcome];
       rewrite Hujson; reflexivity].
  erewrite deliver_at;
    [| reflexivity
     | unfold repos_body, repos_settles, all_settles;
       cbn [profilePromise reposPromise outcome]; rewrite Hljson; reflexivity].
  cbn [app searches].
  rewrite (cons_middle _ (searches pg)), app_assoc.
  rewrite list_lookup_middle by (rewrite length_app; cbn [length]; lia).
  repeat split.
Qed.

Lemma overlapping_searches_witness :
  let h := sample_host (Rejected "Failed to fetch") (Rejected "Failed to fetch") true in
  let pg' := run h [Enter 1700000000000; Typed "no-such-user"; Enter 1700000001000;
                    ProfileAnswer 1%nat (answer 404 ∅ (Rejected "Unexpected end of JSON input"));
                    ProfileAnswer 0%nat (answer 200 quota (Fulfilled octocat));
                    ReposAnswer 0%nat (answer 200 ∅ (Fulfilled [hello_world]));
                    ProfileBody 0%nat; ReposBody 0%nat] (loaded "octocat") in
  errorShown (app pg') = true /\
  errorText (app pg') = "User not found. Please check the username and try again." /\
  profileShown (app pg') = true /\ card (app pg') = Some (render h octocat) /\
  currentRepos (app pg') = Some [hello_world] /\ usernameInput (app pg') = "no-such-user" /\
  loading (app pg') = false /\
  (reposPromise <$> searches pg' !! 1%nat) = Some AwaitFetch.
Proof.
  apply (overlapping_searches
           (sample_host (Rejected "Failed to fetch") (Rejected "Failed to fetch") true)
           (loaded "octocat") 1700000000000 1700000001000 "no-such-user"
           (answer 404 ∅ (Rejected "Unexpected end of JSON input"))
           "User not found. Please check the username and try again."
           {| status := 200; headers := quota; json := Fulfilled octocat |} octocat
           {| status := 200; headers := ∅; json := Fulfilled [hello_world] |} [hello_world]);
    try reflexivity; discriminate.
Defined.

(** Each answer of the host takes a consistent search, on the instance
    expected for it, to a consistent search on the instance expected for
    that one. *)
Lemma profile_answered_expected h st0 s :
  let u := JS.trim (usernameInput st0) in
  consistent h u s ->
  let r := profile_answered h (fetch_user h (user_url u)) s (expected h st0 s) in
  consistent h u (fst r) /\ snd r = expected h st0 (fst r).
Proof.
  intros u (Hp & Hr & Ho). destruct s as [pp rp o].
  cbn [profilePromise reposPromise outcome] in *.
  unfold profile_answered, expected, consistent, profile_settles, all_settles,
    rateLimit_after, profile_settlement, profile_error_message.
  cbn [profilePromise reposPromise outcome fst snd]. fold u.
  destruct pp as [|r|x]; [|split; [auto | reflexivity]..].
  destruct (fetch_user h (user_url u)) as [response|m] eqn:Ef.
  - destruct (ok response) eqn:Eok; cbn [negb].
    + settle_cases.
    + destruct (status response =? 404); [|destruct (status response =? 403)];
        settle_cases.
  - settle_cases.
Qed.

Lemma profile_body_expected h st0 s :
  let u := JS.trim (usernameInput st0) in
  consistent h u s ->
  let r := profile_body h s (expected h st0 s) in
  consistent h u (fst r) /\ snd r = expected h st0 (fst r).
Proof.
  intros u (Hp & Hr & Ho). destruct s as [pp rp o].
  cbn [profilePromise reposPromise outcome] in *.
  unfold profile_body, expected, consistent, profile_settles, all_settles,
    rateLimit_after, profile_settlement.
  cbn [profilePromise reposPromise outcome fst snd]. fold u.
  destruct pp as [|r|x]; [split; [auto | reflexivity] | | split; [auto | reflexivity]].
  destruct Hp as [Ef Eok]. rewrite Ef, Eok.
  destruct (json r) as [profile|m]; settle_cases.
Qed.

Lemma repos_answered_expected h st0 s :
  let u := JS.trim (usernameInput st0) in
  consistent h u s ->
  let r := repos_answered h (fetch_repos h (repos_url u)) s (expected h st0 s) in
  consistent h u (fst r) /\ snd r = expected h st0 (fst r).
Proof.
  intros u (Hp & Hr & Ho). destruct s as [pp rp o].
  cbn [profilePromise reposPromise outcome] in *.
  unfold repos_answered, expected, consistent, repos_settles, all_settles, repos_settlement.
  cbn [profilePromise reposPromise outcome fst snd]. fold u.
  destruct rp as [|r|x]; [|split; [auto | reflexivity]..].
  destruct (fetch_repos h (repos_url u)) as [response|m] eqn:Ef.
  - destruct (ok response) eqn:Eok; cbn [negb]; settle_cases.
  - settle_cases.
Qed.

Lemma repos_body_expected h st0 s :
  let u := JS.trim (usernameInput st0) in
  consistent h u s ->
  let r := repos_body h s (expected h st0 s) in
  consistent h u (fst r) /\ snd r = expected h st0 (fst r).
Proof.
  intros u (Hp & Hr & Ho). destruct s as [pp rp o].
  cbn [profilePromise reposPromise outcome] in *.
  unfold repos_body, expected, consistent, repos_settles, all_settles, repos_settlement.
  cbn [profilePromise reposPromise outcome fst snd]. fold u.
  destruct rp as [|r|x]; [split; [auto | reflexivity] | | split; [auto | reflexivity]].
  destruct Hr as [Ef Eok]. rewrite Ef, Eok.
  destruct (json r) as [repos|m]; settle_cases.
Qed.

Lemma step_expected h st0 l s ev :
  let u := JS.trim (usernameInput st0) in
  answers h u (length l) ev ->
  consistent h u s ->
  exists s', step h {| app := expected h st0 s; searches := l ++ [s] |} ev =
               {| app := expected h st0 s'; searches := l ++ [s'] |} /\
             consistent h u s'.
Proof.
  intros u Hev Hs.
  destruct ev as [value|t|t|e|i a|i|i a|i]; cbn [answers] in Hev; try contradiction;
    cbn [step].
  - destruct Hev as [-> ->].
    destruct (profile_answered_expected h st0 s Hs) as [Hc He]. fold u in Hc, He.
    eexists. split; [|exact Hc].
    erewrite deliver_at; [| reflexivity | apply surjective_pairing]. rewrite He. reflexivity.
  - subst i. destruct (profile_body_expected h st0 s Hs) as [Hc He].
    eexists. split; [|exact Hc].
    erewrite deliver_at; [| reflexivity | apply surjective_pairing]. rewrite He. reflexivity.
  - destruct Hev as [-> ->].
    destruct (repos_answered_expected h st0 s Hs) as [Hc He]. fold u in Hc, He.
    eexists. split; [|exact Hc].
    erewrite deliver_at; [| reflexivity | apply surjective_pairing]. rewrite He. reflexivity.
  - subst i. destruct (repos_body_expected h st0 s Hs) as [Hc He].
    eexists. split; [|exact Hc].
    erewrite deliver_at; [| reflexivity | apply surjective_pairing]. rewrite He. reflexivity.
Qed.

Lemma run_expected h st0 l evs s :
  let u := JS.trim (usernameInput st0) in
  Forall (answers h u (length l)) evs ->
  consistent h u s ->
  exists s', run h evs {| app := expected h st0 s; searches := l ++ [s] |} =
               {| app := expected h st0 s'; searches := l ++ [s'] |} /\
             consistent h u s'.
Proof.
  intros u Hevs. revert s. induction Hevs as [|ev evs Hev _ IH]; intros s Hs.
  - exists s. split; [reflexivity | exact Hs].
  - rewrite run_cons. destruct (step_expected h st0 l s ev Hev Hs) as (s1 & -> & Hs1).
    apply IH. exact Hs1.
Qed.

(** X27: a search that runs alone and is answered is one call of
    [handleSearch] run to its end.  When, after the start of an admitted
    search, the page handles nothing but the answers of the host to its two
    requests, in whatever order, then as soon as both promises have settled
    the instance is the one [handleSearch] gives, the order of the
    settlements standing for which promise settles first. *)
Theorem run_alone_is_handleSearch (h : Host) (pg : Page) (evs : list Event)
    (s : Search) (p : settled Profile) (q : settled (list Repository)) :
  admitted h (app pg) ->
  Forall (answers h (JS.trim (usernameInput (app pg))) (length (searches pg))) evs ->
  let pg' := run h (Enter (now h) :: evs) pg in
  searches pg' !! length (searches pg) = Some s ->
  profilePromise s = Done p -> reposPromise s = Done q ->
  exists first,
    outcome s = Some (Promise_all first p q) /\
    app pg' = handleSearch (with_order first h) (app pg).
Proof.
  intros Hadm Hevs pg' Hs Hp Hq. subst pg'. rewrite run_cons in Hs |- *. cbn [step] in *.
  destruct Hadm as [Hu Hg].
  rewrite (handleSearch_start_admitted (now h) pg Hu Hg) in *.
  set (s0 := {| profilePromise := AwaitFetch; reposPromise := AwaitFetch; outcome := None |}) in *.
  change (log_request _ (log_request _ _)) with (expected h (app pg) s0) in *.
  assert (H0 : consistent h (JS.trim (usernameInput (app pg))) s0).
  { repeat split; intros; discriminate. }
  destruct (run_expected h (app pg) (searches pg) evs s0 Hevs H0) as (s' & E & Hc).
  rewrite E in *. cbn [app searches] in *.
  rewrite list_lookup_middle in Hs by reflexivity. injection Hs as ->.
  destruct Hc as (Cp & Cr & Co). rewrite Hp in Cp. rewrite Hq in Cr.
  assert (Ho : exists first, outcome s = Some (Promise_all first p q)).
  { destruct (outcome s) as [[[p' r']|m]|].
    - destruct Co as [E1 E2]. rewrite Hp in E1. rewrite Hq in E2.
      injection E1 as ->. injection E2 as ->. exists true. reflexivity.
    - destruct Co as [E1 | E2].
      + rewrite Hp in E1. injection E1 as ->. exists true. destruct q; reflexivity.
      + rewrite Hq in E2. injection E2 as ->. exists false. destruct p; reflexivity.
    - exfalso. destruct Co as (N1 & N2 & N3). rewrite Hp in N1, N3. rewrite Hq in N2, N3.
      destruct p as [profile|m]; [|exact (N1 m eq_refl)].
      destruct q as [repos|m]; [|exact (N2 m eq_refl)].
      exact (N3 profile repos eq_refl eq_refl). }
  destruct Ho as [first Ho]. exists first. split; [exact Ho|].
  rewrite (handleSearch_settled (with_order first h) (app pg)) by (split; assumption).
  cbv zeta. unfold expected. rewrite Hp, Ho.
  change (profile_settlement (with_order first h)) with (profile_settlement h).
  change (repos_settlement (with_order first h)) with (repos_settlement h).
  change (rateLimit_after (with_order first h)) with (rateLimit_after h).
  change (profile_settles_first (with_order first h)) with first.
  rewrite <- Cp, <- Cr.
  destruct (Promise_all first p q) as [[profile repos]|m]; reflexivity.
Qed.

Lemma run_alone_is_handleSearch_witness :
  let h := sample_host (answer 404 ∅ (Rejected "Unexpected end of JSON input"))
                       (Rejected "Failed to fetch") true in
  let pg' := run h [Enter (now h); ReposAnswer 0%nat (Rejected "Failed to fetch");
                    ProfileAnswer 0%nat (answer 404 ∅ (Rejected "Unexpected end of JSON input"))]
               (loaded "octocat") in
  let p : settled Profile :=
    Rejected "User not found. Please check the username and try again." in
  let q : settled (list Repository) := Rejected "Failed to fetch" in
  exists first,
    Some (Rejected "Failed to fetch") = Some (Promise_all first p q) /\
    app pg' = handleSearch (with_order first h) (initial "octocat").
Proof.
  apply (run_alone_is_handleSearch
           (sample_host (answer 404 ∅ (Rejected "Unexpected end of JSON input"))
                        (Rejected "Failed to fetch") true)
           (loaded "octocat")
           [ReposAnswer 0%nat (Rejected "Failed to fetch");
            ProfileAnswer 0%nat (answer 404 ∅ (Rejected "Unexpected end of JSON input"))]
           {| profilePromise :=
                Done (Rejected "User not found. Please check the username and try again.");
              reposPromise := Done (Rejected "Failed to fetch");
              outcome := Some (Rejected "Failed to fetch") |}).
  - split; [discriminate | reflexivity].
  - repeat constructor.
  - reflexivity.
  - reflexivity.
  - reflexivity.
Defined.
